(** * Audit and signing reconciliation of the release controller

    Shallow embedding of [cmd/release-controller/audit.go]: the audit
    tracker ([AuditTracker.Sync], [Get], [SetFailure]), the per-tag
    reconciler [syncAuditTag], the job throttle [countAuditVerifyJobs],
    the job naming of [ensureAuditVerifyJob] and the per-release entry
    point [syncAudit].

    The reconciler is written in a small state monad.  Its state holds the
    tracker's record map, the signature store, the jobs known to the job
    control plane and the trace of calls made to external collaborators
    (release loading, store, verification tool, job control plane, signer,
    delaying queue), so that the theorems can speak about which calls a
    reconciliation makes.  Time is in nanoseconds, as Go's [time.Duration]. *)

From Stdlib Require Import ZArith String Ascii.
From stdpp Require Import base gmap strings list.

Open Scope Z_scope.

(* ------------------------------------------------------------------ *)
(** ** Constants of the package *)

Definition Second : Z := 1000000000.
Definition Hour : Z := 3600 * Second.

(** Constants declared elsewhere in the package (their values play no role
    in the properties below). *)
Definition releaseConfigModeStable : string := "Stable".
Definition releaseAnnotationSource : string := "release.openshift.io/source".
Definition releaseAnnotationTarget : string := "release.openshift.io/target".
Definition releaseAnnotationPhase : string := "release.openshift.io/phase".
Definition releaseAnnotationReleaseTag : string := "release.openshift.io/releaseTag".
Definition releaseAnnotationJobPurpose : string := "release.openshift.io/purpose".

(* ------------------------------------------------------------------ *)
(** ** Data model *)

Record AuditFailure := mkAuditFailure {
  Reason : string;
  Message : string
}.

Record AuditRecord := mkAuditRecord {
  At : Z;
  Name : string;
  ID : string;
  Location : string;
  Release : string;
  ImageStreamNamespace : string;
  ImageStreamName : string;
  Failure : option AuditFailure
}.

(** [existing.At = t; existing.Failure = f] *)
Definition withAtFailure (r : AuditRecord) (t : Z) (f : option AuditFailure)
    : AuditRecord :=
  {| At := t; Name := Name r; ID := ID r; Location := Location r;
     Release := Release r; ImageStreamNamespace := ImageStreamNamespace r;
     ImageStreamName := ImageStreamName r; Failure := f |}.

(** The parts of [Release] the audit code reads. *)
Record ReleaseConfig := mkReleaseConfig {
  cfgName : string;
  cfgAs : string;
  OverrideCLIImage : string;
  PullSecretName : string
}.

Record TagReference := mkTagReference {
  tagName : string;
  tagAnnotations : gmap string string
}.

Record ImageStream := mkImageStream {
  isNamespace : string;
  isName : string;
  isResourceVersion : string;
  specTags : list TagReference
}.

Record ReleaseT := mkRelease {
  Config : ReleaseConfig;
  Source : ImageStream;
  Target : ImageStream
}.

(** A batch job: its name, labels and annotations, the arguments given to
    [newReleaseJobBase] (image, pull secret), the container set up by
    [ensureAuditVerifyJob], and the status fields read by the code. *)
Record Job := mkJob {
  jobName : string;
  jobLabels : gmap string string;
  jobAnnotations : gmap string string;
  jobImage : string;
  jobPullSecret : string;
  jobContainer : string;
  jobLocation : string;
  jobCompletionTime : option Z;
  jobFailed : bool;
  jobActive : Z
}.

(** Calls to external collaborators. *)
Inductive Event :=
| ELoadRelease (ns n : string)
| EHasSignature (dgst : string)
| EVerifyLocal (location : string)
| EListJobs
| EEnsureJob (name : string)
| ECreateJob (j : Job)
| EPodLookup (name : string)
| EAddAfter (key : string) (delay : Z)
| ESign (dgst location : string)
| EPutSignature (dgst : string) (ok : bool).

(** The controller's configuration and the answers of its collaborators. *)
Record Controller := mkController {
  cliImageForAudit : string;
  (** [loadReleaseForSync ns name] returns [(release, err)]. *)
  loadReleaseForSync : string -> string -> option ReleaseT * option string;
  (** [oc adm release info --verify loc]: exit status zero, combined output. *)
  runVerify : string -> bool * string;
  (** the job lister fails *)
  jobListErr : bool;
  (** the job creation error of [ensureJob], if any *)
  jobCreateErr : option string;
  (** the message found by [ensureJobTerminationMessageRetrieved] *)
  podTerminationMessage : Job -> string;
  (** [signer == nil] or [Sign(dgst, location) -> (sig, err)] *)
  signer : option (string -> string -> string + string);
  (** error of [PutSignature] for a digest, if any *)
  putSignatureErr : string -> option string;
  (** the clock read by [SetFailure] *)
  clock : Z
}.

Record State := mkState {
  records : gmap string AuditRecord;
  signatures : list string;
  jobs : list Job;
  trace : list Event
}.

(* ------------------------------------------------------------------ *)
(** ** A state monad *)

Definition M (A : Type) : Type := State -> A * State.

#[global] Instance M_ret : MRet M := fun A a s => (a, s).
#[global] Instance M_bind : MBind M :=
  fun A B f m s => let '(a, s') := m s in f a s'.

Definition emit (e : Event) : M unit :=
  fun s => (tt, mkState (records s) (signatures s) (jobs s) (trace s ++ [e])).

Definition setRecords (rs : gmap string AuditRecord) : M unit :=
  fun s => (tt, mkState rs (signatures s) (jobs s) (trace s)).

Definition getState : M State := fun s => (s, s).

(* ------------------------------------------------------------------ *)
(** ** AuditTracker.Get and AuditTracker.SetFailure *)

(** [Get] returns a copy; records are values here, so a lookup. *)
Definition Get (name : string) : M (option AuditRecord) :=
  fun s => (records s !! name, s).

Definition SetFailure (now : Z) (name message : string) : M unit :=
  s ← getState;
  match records s !! name with
  | None => mret tt
  | Some existing =>
      setRecords (<[name := withAtFailure existing now
                     (Some (mkAuditFailure "VerificationFailed" message))]>
                  (records s))
  end.

(* ------------------------------------------------------------------ *)
(** ** Collaborators *)

Definition loadRelease (c : Controller) (ns n : string)
    : M (option ReleaseT * option string) :=
  emit (ELoadRelease ns n) ;; mret (loadReleaseForSync c ns n).

(** The signature store: [HasSignature] reports what [PutSignature] has
    stored. *)
Definition HasSignature (dgst : string) : M bool :=
  emit (EHasSignature dgst) ;;
  s ← getState;
  mret (existsb (String.eqb dgst) (signatures s)).

Definition storeSignature (dgst : string) : M unit :=
  fun s => (tt, mkState (records s) (dgst :: signatures s) (jobs s) (trace s)).

Definition PutSignature (c : Controller) (dgst : string) (signature : string)
    : M (option string) :=
  match putSignatureErr c dgst with
  | Some e => emit (EPutSignature dgst false) ;; mret (Some e)
  | None =>
      emit (EPutSignature dgst true) ;; storeSignature dgst ;; mret None
  end.

Definition AddAfter (key : string) (delay : Z) : M unit :=
  emit (EAddAfter key delay).

(* ------------------------------------------------------------------ *)
(** ** Strings *)

Definition nl : string := String (ascii_of_nat 10) EmptyString.

(** [strings.SplitN(s, ":", 2)] *)
Fixpoint cutColon (s : string) : option (string * string) :=
  match s with
  | EmptyString => None
  | String ch rest =>
      if Ascii.eqb ch ":" then Some (EmptyString, rest)
      else match cutColon rest with
           | Some (a, b) => Some (String ch a, b)
           | None => None
           end
  end.

Definition SplitN2Colon (s : string) : list string :=
  match cutColon s with
  | Some (a, b) => [a; b]
  | None => [s]
  end.

(** [strings.Replace(s, ":", "-", -1)] *)
Fixpoint replaceColonDash (s : string) : string :=
  match s with
  | EmptyString => EmptyString
  | String ch rest =>
      String (if Ascii.eqb ch ":" then "-"%char else ch) (replaceColonDash rest)
  end.

(** [strings.TrimSpace] on ASCII white space. *)
Definition isSpace (ch : ascii) : bool :=
  let n := nat_of_ascii ch in
  (n =? 32)%nat || (n =? 9)%nat || (n =? 10)%nat || (n =? 11)%nat
  || (n =? 12)%nat || (n =? 13)%nat.

Fixpoint trimLeft (s : string) : string :=
  match s with
  | EmptyString => EmptyString
  | String ch rest => if isSpace ch then trimLeft rest else s
  end.

Fixpoint revString (s acc : string) : string :=
  match s with
  | EmptyString => acc
  | String ch rest => revString rest (String ch acc)
  end.

Definition TrimSpace (s : string) : string :=
  revString (trimLeft (revString (trimLeft s) EmptyString)) EmptyString.

(* ------------------------------------------------------------------ *)
(** ** countAuditVerifyJobs and ensureAuditVerifyJob *)

(** [auditVerifyJobSelector]: the purpose label is "audit". *)
Definition auditVerifyJobSelector (j : Job) : bool :=
  match jobLabels j !! releaseAnnotationJobPurpose with
  | Some v => String.eqb v "audit"
  | None => false
  end.

(** The counting loop: listed jobs without a completion time. *)
Definition countUnfinished (result : list Job) : Z :=
  Z.of_nat (length (filter (fun j => jobCompletionTime j = None) result)).

Definition countAuditVerifyJobs (c : Controller) : M (Z * bool) :=
  emit EListJobs ;;
  s ← getState;
  if jobListErr c then mret (0, false)
  else
    let result := filter (fun j => auditVerifyJobSelector j = true) (jobs s) in
    mret (countUnfinished result, true).

(** The safe job name of [ensureAuditVerifyJob]. *)
Definition auditVerifyJobName (id : string) : string :=
  let name := match SplitN2Colon id with
              | [_; p1] => ("verify-" ++ p1)%string
              | _ => id
              end in
  let name := replaceColonDash name in
  if (63 <? String.length name)%nat then substring 0 63 name else name.

(** The job built by the creation callback of [ensureAuditVerifyJob]; the
    base job of [newReleaseJobBase] is represented by its arguments. *)
Definition newAuditVerifyJob (release : ReleaseT) (record : AuditRecord)
    (name : string) : Job :=
  let cliImage := OverrideCLIImage (Config release) in
  {| jobName := name;
     jobLabels := {[ releaseAnnotationJobPurpose := "audit" ]};
     jobAnnotations :=
       <[ releaseAnnotationSource :=
            (isNamespace (Source release) ++ "/" ++ isName (Source release))%string ]>
       (<[ releaseAnnotationTarget :=
            (isNamespace (Target release) ++ "/" ++ isName (Target release))%string ]>
       (<[ releaseAnnotationReleaseTag := Name record ]>
       {[ releaseAnnotationJobPurpose := "audit" ]}));
     jobImage := cliImage;
     jobPullSecret := PullSecretName (Config release);
     jobContainer := "verify";
     jobLocation := Location record;
     jobCompletionTime := None;
     jobFailed := false;
     jobActive := 0 |}.

Definition addJob (j : Job) : M unit :=
  fun s => (tt, mkState (records s) (signatures s) (j :: jobs s) (trace s)).

(** Modelled from the spec: [Controller.ensureJob], declared outside this
    file, is the idempotent "create-or-get job by name" of the job control
    plane: an existing job of that name is returned, otherwise the job built
    by the callback is created (or the creation error returned). *)
Definition ensureJob (c : Controller) (name : string) (create : Job)
    : M (option Job * option string) :=
  emit (EEnsureJob name) ;;
  s ← getState;
  match find (fun j => String.eqb (jobName j) name) (jobs s) with
  | Some j => mret (Some j, None)
  | None =>
      match jobCreateErr c with
      | Some e => mret (None, Some e)
      | None =>
          addJob create ;;
          emit (ECreateJob create) ;;
          mret (Some create, None)
      end
  end.

Definition ensureAuditVerifyJob (c : Controller) (release : ReleaseT)
    (record : AuditRecord) : M (option Job * option string) :=
  let name := auditVerifyJobName (ID record) in
  ensureJob c name (newAuditVerifyJob release record name).

(** Modelled from the spec: [jobIsComplete], declared outside this file,
    reads the job status as [(success, complete)]: a job is complete when it
    has a completion time or has failed, and successful when it completed
    without failing. *)
Definition jobIsComplete (j : Job) : bool * bool :=
  (bool_decide (jobCompletionTime j <> None) && negb (jobFailed j),
   bool_decide (jobCompletionTime j <> None) || jobFailed j).

(* ------------------------------------------------------------------ *)
(** ** ensureJobTerminationMessageRetrieved *)

(** The fields of [corev1.ContainerStateTerminated] read by
    [ensureJobTerminationMessageRetrieved]; times are Z. *)
Record ContainerStateTerminated := mkTerminated {
  FinishedAt : Z; ExitCode : Z; TMessage : string }.

(** A [corev1.ContainerStatus], reduced to [State.Terminated]. *)
Record ContainerStatus := mkContainerStatus { Terminated : option ContainerStateTerminated }.

(** The comparator given to [sort.Slice]: [a, b := statuses[j], statuses[i]],
    so that the most recently terminated container sorts first. *)
Definition statusLess (si sj : ContainerStatus) : bool :=
  let a := sj in
  let b := si in
  match Terminated a, Terminated b with
  | Some ta, Some tb => FinishedAt ta <? FinishedAt tb
  | None, _ => true
  | Some _, None => false
  end.

(** The loop over the sorted statuses. *)
Fixpoint firstTerminated (onlySuccess : bool) (statuses : list ContainerStatus)
    : string * Z * bool :=
  match statuses with
  | [] => (""%string, 0, false)
  | status :: rest =>
      match Terminated status with
      | None => firstTerminated onlySuccess rest
      | Some t =>
          if onlySuccess && negb (ExitCode t =? 0) then firstTerminated onlySuccess rest
          else (TMessage t, ExitCode t, true)
      end
  end.

(** [ensureJobTerminationMessageRetrieved]. The pod lookup
    [findJobContainerStatus] ([None] for its error) and [sort.Slice] are
    parameters. *)
Definition ensureJobTerminationMessageRetrieved
    (findJobContainerStatus : Job -> string -> string -> option (list ContainerStatus))
    (sortSlice : (ContainerStatus -> ContainerStatus -> bool) ->
                 list ContainerStatus -> list ContainerStatus)
    (job : Job) (podFieldSelector containerName : string) (onlySuccess : bool)
    : string * Z * bool :=
  if jobActive job =? 0 then (""%string, 0, false)
  else
    match findJobContainerStatus job podFieldSelector containerName with
    | None => (""%string, 0, false)
    | Some statuses => firstTerminated onlySuccess (sortSlice statusLess statuses)
    end.

(* ------------------------------------------------------------------ *)
(** ** The per-tag reconciler [syncAuditTag] *)

(** Outcome of the verification backend: proceed to signing, or stop the
    reconciliation with the given [error] result. *)
Inductive VerifyResult :=
| Verified
| Stop (err : option string).

(** [%v] of an [error] value. *)
Definition showErr (err : option string) : string :=
  match err with Some e => e | None => "<nil>" end.

Definition verifyLocal (c : Controller) (record : AuditRecord) : M VerifyResult :=
  emit (EVerifyLocal (Location record)) ;;
  let '(ok, out) := runVerify c (Location record) in
  if ok then mret Verified
  else
    let failureMsg := ("Unable to verify release:" ++ nl ++ TrimSpace out)%string in
    SetFailure (clock c) (Name record) failureMsg ;;
    mret (Stop None).

Definition verifyClusterJob (c : Controller) (releaseName : string)
    (release : ReleaseT) (record : AuditRecord) : M VerifyResult :=
  '(count, ok) ← countAuditVerifyJobs c;
  if negb ok || (2 <? count) then
    AddAfter releaseName (10 * Second) ;; mret (Stop None)
  else
    '(job, err) ← ensureAuditVerifyJob c release record;
    match job, err with
    | Some j, None =>
        let '(success, complete) := jobIsComplete j in
        if negb complete then
          AddAfter releaseName (10 * Second) ;; mret (Stop None)
        else if negb success then
          emit (EPodLookup (jobName j)) ;;
          let message := podTerminationMessage c j in
          let failureMsg :=
            if (0 <? String.length message)%nat
            then ("Unable to verify release:" ++ nl ++ nl ++ message)%string
            else "Unable to verify release for unknown reason" in
          SetFailure (clock c) (Name record) failureMsg ;;
          mret (Stop None)
        else mret Verified
    | _, _ =>
        mret (Stop (Some ("unable to verify release before signing: "
                          ++ showErr err)%string))
    end.

Definition signAndStore (c : Controller) (record : AuditRecord) : M (option string) :=
  match signer c with
  | None => mret None
  | Some sign =>
      emit (ESign (ID record) (Location record)) ;;
      match sign (ID record) (Location record) with
      | inr e => mret (Some ("unable to sign release: " ++ e)%string)
      | inl sig =>
          perr ← PutSignature c (ID record) sig;
          match perr with
          | Some e => mret (Some ("unable to upload release signature: " ++ e)%string)
          | None => mret None
          end
      end
  end.

(** The image choice of [syncAuditTag]: the controller's pinned audit CLI
    image, or else the release's [OverrideCLIImage]. *)
Definition auditCLIImage (c : Controller) (release : ReleaseT) : string :=
  if (String.length (cliImageForAudit c) =? 0)%nat
  then OverrideCLIImage (Config release)
  else cliImageForAudit c.

(** [syncAuditTag] from the signature check on, once the release of the
    record has been loaded. *)
Definition auditLoadedRelease (c : Controller) (releaseName : string)
    (record : AuditRecord) (release : ReleaseT) : M (option string) :=
  HasSignature (ID record) ≫= fun hasSig : bool =>
  if hasSig then mret None
  else
    let image := auditCLIImage c release in
    if (String.length image =? 0)%nat then mret None
    else
      v ← (if String.eqb image "local"
           then verifyLocal c record
           else verifyClusterJob c releaseName release record);
      match v with
      | Stop r => mret r
      | Verified => signAndStore c record
      end.

Definition syncAuditTag (c : Controller) (releaseName : string) : M (option string) :=
  ro ← Get releaseName;
  match ro with
  | None => mret None
  | Some record =>
    match Failure record with
    | Some _ => mret None
    | None =>
      if (String.length (ID record) =? 0)%nat then
        let msg := ("Release " ++ Name record
                    ++ " has no digest and cannot be verified")%string in
        SetFailure (clock c) (Name record) msg ;;
        mret None
      else
        '(rel, err) ← loadRelease c (ImageStreamNamespace record)
                                    (ImageStreamName record);
        match rel, err with
        | Some release, None => auditLoadedRelease c releaseName record release
        | _, _ => mret err
        end
    end
  end.

(** Reconciling the same tag [n] times in a row. *)
Fixpoint reconcileN (c : Controller) (name : string) (n : nat) : M unit :=
  match n with
  | O => mret tt
  | S k => syncAuditTag c name ;; reconcileN c name k
  end.

(* ------------------------------------------------------------------ *)
(** ** AuditTracker.Sync *)

Section Tracker.

(** Package functions declared outside this file: the image ID and the
    public pull spec of a tag of the target image stream. *)
Variable findImageIDForTag : ImageStream -> string -> string.
Variable findPublicImagePullSpec : ImageStream -> string -> string.

(** The tag filter at the head of the loop of [Sync]. *)
Definition recognizedTag (tag : TagReference) : bool :=
  match tagAnnotations tag !! releaseAnnotationSource with
  | None => false
  | Some _ =>
      if (String.length (tagName tag) =? 0)%nat then false
      else
        let phase := default "" (tagAnnotations tag !! releaseAnnotationPhase) in
        String.eqb phase "Accepted" || String.eqb phase "Ready"
        || String.eqb phase "Rejected"
  end.

(** Loop state: the record map, the set [found] of tag names seen and the
    names added to the queue. *)
Definition SyncAcc : Type := gmap string AuditRecord * list string * list string.

(** One iteration of the loop of [Sync]; [now] is the time read before the
    loop and [clk] the value of [time.Now()] read in this iteration. *)
Definition syncTag (now clk : Z) (release : ReleaseT) (acc : SyncAcc)
    (tag : TagReference) : SyncAcc :=
  let '(recs, found, added) := acc in
  if negb (recognizedTag tag) then acc
  else
    let found := found ++ [tagName tag] in
    let from := Target release in
    let id := findImageIDForTag from (tagName tag) in
    let location := findPublicImagePullSpec from (tagName tag) in
    match recs !! tagName tag with
    | None =>
        (<[tagName tag :=
            {| At := now; Name := tagName tag; ID := id; Location := location;
               Release := cfgName (Config release);
               ImageStreamNamespace := isNamespace (Source release);
               ImageStreamName := isName (Source release);
               Failure := None |}]> recs,
         found, added ++ [tagName tag])
    | Some existing =>
        let changed := negb (String.eqb (Location existing) location)
                       || negb (String.eqb (ID existing) id) in
        if 12 * Hour <? clk - At existing then
          (<[tagName tag := withAtFailure existing now None]> recs,
           found, added ++ [tagName tag])
        else (recs, found, if changed then added ++ [tagName tag] else added)
    end.

(** The loop; [tick i] is the clock read in iteration [i]. *)
Fixpoint syncTags (now : Z) (tick : nat -> Z) (release : ReleaseT) (i : nat)
    (tags : list TagReference) (acc : SyncAcc) : SyncAcc :=
  match tags with
  | [] => acc
  | tag :: rest =>
      syncTags now tick release (S i) rest (syncTag now (tick i) release acc tag)
  end.

(** [Sync] returns the new record map and the tag names added to the
    queue, in order. *)
Definition Sync (now : Z) (tick : nat -> Z) (release : ReleaseT)
    (recs : gmap string AuditRecord) : gmap string AuditRecord * list string :=
  if negb (String.eqb (cfgAs (Config release)) releaseConfigModeStable)
  then (recs, [])
  else
    let '(recs, found, added) :=
      syncTags now tick release 0 (specTags (Target release)) (recs, [], []) in
    (filter (fun kv : string * AuditRecord =>
               Release kv.2 <> cfgName (Config release) \/ kv.1 ∈ found) recs,
     added).

(* ------------------------------------------------------------------ *)
(** ** syncAudit and Go's defer / recover / panic *)

Record queueKey := mkQueueKey { qnamespace : string; qname : string }.

(** How a Go call ends: it returns, or it panics with a value ([None] is the
    nil interface). *)
Inductive GoOutcome (A : Type) :=
| Returned (a : A)
| Panicked (v : option string).
Arguments Returned {A} a.
Arguments Panicked {A} v.

(** [recover()] in a deferred call: the panic value if the function is
    panicking, [nil] otherwise. *)
Definition recover {A} (o : GoOutcome A) : option string :=
  match o with
  | Returned _ => None
  | Panicked v => v
  end.

(** [defer func() { err := recover(); panic(err) }()]: the deferred call
    runs when the body ends, however it ends, and panics with [err]. *)
Definition deferRecoverRepanic {A} (o : GoOutcome A) : GoOutcome A :=
  let err := recover o in Panicked err.

(** The body of [syncAudit]: the result is the returned [error], the new
    records and the names queued by [Sync]. *)
Definition syncAuditBody (c : Controller) (now : Z) (tick : nat -> Z)
    (key : queueKey) (recs : gmap string AuditRecord)
    : GoOutcome (option string * gmap string AuditRecord * list string) :=
  match loadReleaseForSync c (qnamespace key) (qname key) with
  | (Some release, None) =>
      let '(recs', added) := Sync now tick release recs in
      Returned (None, recs', added)
  | (_, err) => Returned (err, recs, [])
  end.

Definition syncAudit (c : Controller) (now : Z) (tick : nat -> Z)
    (key : queueKey) (recs : gmap string AuditRecord)
    : GoOutcome (option string * gmap string AuditRecord * list string) :=
  deferRecoverRepanic (syncAuditBody c now tick key recs).

End Tracker.

Arguments Returned {A} a.
Arguments Panicked {A} v.

(* ------------------------------------------------------------------ *)
(** ** Sample inputs *)

Definition sampleTag : string := "4.10.0-0.ci-2023-01-01-000000".
Definition sampleDigest : string := "sha256:abcd".
Definition sampleLocation : string := "registry.example/repo@sha256:abcd".

Definition sampleRelease (override : string) : ReleaseT :=
  mkRelease (mkReleaseConfig "4.10.0-0.ci" "Stable" override "pull-secret")
            (mkImageStream "ocp" "release" "1" [])
            (mkImageStream "ocp" "release" "1" []).

Definition sampleRecord (id : string) (f : option AuditFailure) : AuditRecord :=
  mkAuditRecord 0 sampleTag id sampleLocation "4.10.0-0.ci" "ocp" "release" f.

Definition sampleController (cli override : string) (listErr : bool) : Controller :=
  mkController cli (fun _ _ => (Some (sampleRelease override), None))
    (fun _ => (true, EmptyString)) listErr None (fun _ => EmptyString)
    (Some (fun _ _ => inl "signature")) (fun _ => None) 100.

Definition unfinishedAuditJob (n : string) : Job :=
  mkJob n {[ releaseAnnotationJobPurpose := "audit" ]} ∅ "" "" "verify" ""
        None false 1.

Definition sampleState (r : AuditRecord) (js : list Job) : State :=
  mkState {[ sampleTag := r ]} [] js [].

(** A tag of the target stream in phase Accepted, and a stable release whose
    target stream lists the given tags. *)
Definition acceptedTag (name : string) : TagReference :=
  mkTagReference name
    (<[releaseAnnotationSource := "ocp/release"]>
       (<[releaseAnnotationPhase := "Accepted"]> (∅ : gmap string string))).

Definition sampleStreamRelease (tags : list TagReference) : ReleaseT :=
  mkRelease (mkReleaseConfig "4.10.0-0.ci" "Stable" "" "pull-secret")
            (mkImageStream "ocp" "release" "1" [])
            (mkImageStream "ocp" "release" "1" tags).

Definition sampleFailure : AuditFailure :=
  mkAuditFailure "VerificationFailed" "Unable to verify release for unknown reason".

(** A record for [sampleTag] owned by another release, 4.11.0-0.ci. *)
Definition otherRecord (at_ : Z) (f : option AuditFailure) : AuditRecord :=
  mkAuditRecord at_ sampleTag sampleDigest sampleLocation "4.11.0-0.ci" "ocp"
    "release-4.11" f.

Definition sampleFindID (_ : ImageStream) (_ : string) : string := sampleDigest.
Definition sampleFindPull (_ : ImageStream) (_ : string) : string := sampleLocation.

(** Two container statuses, one still running. *)
Definition sampleStatuses : list ContainerStatus :=
  [mkContainerStatus None; mkContainerStatus (Some (mkTerminated 5 0 "done"))].

(** A pod lookup that finds [sampleStatuses]. *)
Definition sampleFindStatus (_ : Job) (_ _ : string) : option (list ContainerStatus) :=
  Some sampleStatuses.

(** A [sort.Slice] on input that is already in order. *)
Definition alreadySorted (less : ContainerStatus -> ContainerStatus -> bool)
    (l : list ContainerStatus) : list ContainerStatus := l.

(* ------------------------------------------------------------------ *)
(** ** Predicates on runs *)

(** [m] relates every state to its successor by [R]. *)
Definition Stable {A} (R : State -> State -> Prop) (m : M A) : Prop :=
  forall s, R s (snd (m s)).

(** The calls made are all in [P]. *)
Definition Rtrace (P : Event -> Prop) (s s' : State) : Prop :=
  exists suf, trace s' = trace s ++ suf /\ Forall P suf.

(** The signature store is unchanged. *)
Definition Rsig (s s' : State) : Prop := signatures s' = signatures s.

(** No record disappears and no record's digest changes. *)
Definition Rkeep (s s' : State) : Prop :=
  forall k r, records s !! k = Some r ->
  exists r', records s' !! k = Some r' /\ ID r' = ID r.

(** The three relations together. *)
Definition Rall (P : Event -> Prop) (s s' : State) : Prop :=
  Rtrace P s s' /\ Rsig s s' /\ Rkeep s s'.

(** Calls of the signing step. *)
Definition isSigningCall (e : Event) : Prop :=
  match e with
  | ESign _ _ | EPutSignature _ _ => True
  | _ => False
  end.

(** Every job created by a reconciliation whose record's release loads as
    [release] carries the image [OverrideCLIImage] of [release]. *)
Definition createsWithOverride (release : ReleaseT) (e : Event) : Prop :=
  forall j, e = ECreateJob j -> jobImage j = OverrideCLIImage (Config release).

(** Every computation extends the trace. *)
Definition Extends : State -> State -> Prop := Rtrace (fun _ => True).

(** No colon in a string. *)
Fixpoint colonFree (s : string) : bool :=
  match s with
  | EmptyString => true
  | String ch rest => negb (Ascii.eqb ch ":") && colonFree rest
  end.

(** Calls that only read: loading the release, asking the store. *)
Definition isLookupCall (e : Event) : Prop :=
  match e with
  | ELoadRelease _ _ | EHasSignature _ => True
  | _ => False
  end.

(** Not a successful [PutSignature]. *)
Definition noPutOk (e : Event) : Prop := forall d, e <> EPutSignature d true.

(** From [s] to [s']: no record lost and no digest changed, and either no
    successful [PutSignature], or exactly one for [d], as the last call,
    after which [d] is in the store. *)
Definition PutOnce (d : string) (s s' : State) : Prop :=
  Rkeep s s'
  /\ (Rtrace noPutOk s s'
      \/ exists suf, trace s' = trace s ++ suf ++ [EPutSignature d true]
                     /\ Forall noPutOk suf
                     /\ existsb (String.eqb d) (signatures s') = true).

(** From [s] to [s']: no record lost and no digest changed, and either no
    successful [PutSignature], or a single one, for [d], followed only by
    release loads and signature lookups, with [d] in the store at the end. *)
Definition SignsOnce (d : string) (s s' : State) : Prop :=
  Rkeep s s'
  /\ (Rtrace noPutOk s s'
      \/ exists suf post,
           trace s' = trace s ++ suf ++ EPutSignature d true :: post
           /\ Forall noPutOk suf /\ Forall isLookupCall post
           /\ existsb (String.eqb d) (signatures s') = true).

(** The names of the tags the loop records in [found]. *)
Definition foundNames (tags : list TagReference) : list string :=
  tagName <$> filter (fun u => recognizedTag u = true) tags.

(** The record as [SetFailure] leaves it. *)
Definition failedRecord (r : AuditRecord) (now : Z) (msg : string) : AuditRecord :=
  withAtFailure r now (Some (mkAuditFailure "VerificationFailed" msg)).

(** The records are unchanged, or the record at [key] is marked failed. *)
Definition RecOnce (key : string) (now : Z) (s s' : State) : Prop :=
  records s' = records s
  \/ exists r msg, records s !! key = Some r
                   /\ records s' = <[key := failedRecord r now msg]> (records s).

(** The jobs matched by [auditVerifyJobSelector]. *)
Definition auditJobs (js : list Job) : list Job :=
  filter (fun j => auditVerifyJobSelector j = true) js.

(** The job of that name, as [ensureJob] looks it up. *)
Definition findJob (name : string) (js : list Job) : option Job :=
  find (fun j => String.eqb (jobName j) name) js.

(** What [syncAuditTag] has checked before it signs [r] from state [s]. *)
Definition verifiedFor (c : Controller) (s : State) (r : AuditRecord) : Prop :=
  Failure r = None
  /\ existsb (String.eqb (ID r)) (signatures s) = false
  /\ exists release,
       loadReleaseForSync c (ImageStreamNamespace r) (ImageStreamName r)
         = (Some release, None)
       /\ ((auditCLIImage c release = "local" /\ fst (runVerify c (Location r)) = true)
           \/ (auditCLIImage c release <> "local" /\ auditCLIImage c release <> ""
               /\ exists j, findJob (auditVerifyJobName (ID r)) (jobs s) = Some j
                            /\ jobIsComplete j = (true, true))).

(** A signing event is for [r] and happens under [cond]. *)
Definition signsAfter (cond : Prop) (r : AuditRecord) (e : Event) : Prop :=
  forall d l, e = ESign d l -> d = ID r /\ l = Location r /\ cond.

(** [js] is the job list after [syncAuditTag] created the verify job of [r]. *)
Definition createdFor (c : Controller) (s : State) (r : AuditRecord) (js : list Job) : Prop :=
  exists release,
    loadReleaseForSync c (ImageStreamNamespace r) (ImageStreamName r) = (Some release, None)
    /\ auditCLIImage c release <> "local"
    /\ js = newAuditVerifyJob release r (auditVerifyJobName (ID r)) :: jobs s
    /\ jobListErr c = false
    /\ (countUnfinished (auditJobs (jobs s)) <= 2)
    /\ findJob (auditVerifyJobName (ID r)) (jobs s) = None.

(** A container status whose terminated state [ensureJobTerminationMessageRetrieved] may report. *)
Definition eligible (onlySuccess : bool) (status : ContainerStatus) (t : ContainerStateTerminated) : Prop :=
  Terminated status = Some t /\ (onlySuccess = true -> ExitCode t = 0).

(** The record [Sync] creates for a new tag. *)
Definition newAuditRecord (fid fpull : ImageStream -> string -> string) (now : Z)
    (release : ReleaseT) (name : string) : AuditRecord :=
  {| At := now; Name := name; ID := fid (Target release) name;
     Location := fpull (Target release) name;
     Release := cfgName (Config release);
     ImageStreamNamespace := isNamespace (Source release);
     ImageStreamName := isName (Source release);
     Failure := None |}.

(** Every record is stored under its own name. *)
Definition keyedByName (recs : gmap string AuditRecord) : Prop :=
  map_Forall (fun k v => Name v = k) recs.

(** [v'] is [v], or [v] refreshed at [now] with its failure cleared. *)
Definition refreshedOrSame (now : Z) (v v' : AuditRecord) : Prop :=
  v' = v \/ v' = withAtFailure v now None.

Example sample_local_signs_once :
  trace (snd (syncAuditTag (sampleController "local" "" false) sampleTag
                (sampleState (sampleRecord sampleDigest None) []) ))
  = [ELoadRelease "ocp" "release"; EHasSignature sampleDigest;
     EVerifyLocal sampleLocation; ESign sampleDigest sampleLocation;
     EPutSignature sampleDigest true].
Proof. vm_compute. reflexivity. Qed.

Example sample_three_jobs_throttled :
  let s := snd (syncAuditTag (sampleController "cli:v1" "" false) sampleTag
                (sampleState (sampleRecord sampleDigest None)
                   [unfinishedAuditJob "a"; unfinishedAuditJob "b";
                    unfinishedAuditJob "c"])) in
  trace s = [ELoadRelease "ocp" "release"; EHasSignature sampleDigest;
             EListJobs; EAddAfter sampleTag (10 * Second)]
  /\ length (jobs s) = 3%nat.
Proof. vm_compute. split; reflexivity. Qed.

Example sample_job_name :
  auditVerifyJobName "sha256:0123456789abcdef0123456789abcdef0123456789abcdef0123456789abcdef"
  = "verify-0123456789abcdef0123456789abcdef0123456789abcdef01234567".
Proof. vm_compute. reflexivity. Qed.

(* ------------------------------------------------------------------ *)
(** ** Reasoning about the state monad *)

Lemma Stable_ret {A} (R : State -> State -> Prop) (a : A) :
  Reflexive R -> Stable R (mret a).
Proof. intros Hr s. apply Hr. Qed.

Lemma Stable_bind {A B} (R : State -> State -> Prop) (m : M A) (f : A -> M B) :
  Transitive R -> Stable R m -> (forall a, Stable R (f a)) ->
  Stable R (m ≫= f).
Proof.
  intros Ht Hm Hf s. unfold mbind, M_bind.
  specialize (Hm s). destruct (m s) as [a s1] eqn:E. cbn in Hm.
  eapply Ht; [exact Hm | apply Hf].
Qed.

#[global] Instance Rtrace_refl P : Reflexive (Rtrace P).
Proof. intros s. exists []. rewrite app_nil_r. split; [reflexivity | constructor]. Qed.
#[global] Instance Rtrace_trans P : Transitive (Rtrace P).
Proof.
  intros s1 s2 s3 [l1 [E1 F1]] [l2 [E2 F2]]. exists (l1 ++ l2).
  rewrite E2, E1, app_assoc. split; [reflexivity | apply Forall_app; auto].
Qed.
#[global] Instance Rsig_refl : Reflexive Rsig.
Proof. intros s. reflexivity. Qed.
#[global] Instance Rsig_trans : Transitive Rsig.
Proof. intros s1 s2 s3 E1 E2. unfold Rsig in *. congruence. Qed.
#[global] Instance Rkeep_refl : Reflexive Rkeep.
Proof. intros s k r H. eauto. Qed.
#[global] Instance Rkeep_trans : Transitive Rkeep.
Proof.
  intros s1 s2 s3 H12 H23 k r H. destruct (H12 k r H) as [r2 [H2 E2]].
  destruct (H23 k r2 H2) as [r3 [H3 E3]]. exists r3. split; [exact H3 | congruence].
Qed.

Lemma Stable_emit_trace (P : Event -> Prop) e : P e -> Stable (Rtrace P) (emit e).
Proof. intros H s. exists [e]. split; [reflexivity | repeat constructor; exact H]. Qed.

Lemma Stable_emit_sig e : Stable Rsig (emit e).
Proof. intros s. reflexivity. Qed.

Lemma Stable_emit_keep e : Stable Rkeep (emit e).
Proof. intros s k r H. eauto. Qed.

Lemma Stable_getState (R : State -> State -> Prop) :
  Reflexive R -> Stable R getState.
Proof. intros Hr s. apply Hr. Qed.

Lemma Stable_SetFailure_trace P now name msg : Stable (Rtrace P) (SetFailure now name msg).
Proof.
  intros s. unfold SetFailure, mbind, M_bind, getState. cbn.
  destruct (records s !! name); cbn; exists []; rewrite app_nil_r;
    (split; [reflexivity | constructor]).
Qed.

Lemma Stable_SetFailure_sig now name msg : Stable Rsig (SetFailure now name msg).
Proof.
  intros s. unfold SetFailure, mbind, M_bind, getState. cbn.
  destruct (records s !! name); reflexivity.
Qed.

Lemma Stable_SetFailure_keep now name msg : Stable Rkeep (SetFailure now name msg).
Proof.
  intros s k r H. unfold SetFailure, mbind, M_bind, getState. cbn.
  destruct (records s !! name) as [ex|] eqn:E; cbn; [|eauto].
  destruct (decide (k = name)) as [->|Hne].
  - rewrite lookup_insert_eq. eexists; split; [reflexivity|]. cbn. congruence.
  - rewrite lookup_insert_ne by congruence. eauto.
Qed.

#[global] Instance Rall_refl P : Reflexive (Rall P).
Proof. intros s. split; [reflexivity | split; reflexivity]. Qed.
#[global] Instance Rall_trans P : Transitive (Rall P).
Proof.
  intros s1 s2 s3 [A1 [B1 C1]] [A2 [B2 C2]].
  split; [etransitivity; eauto | split; etransitivity; eauto].
Qed.

Lemma Stable_all_emit P e : P e -> Stable (Rall P) (emit e).
Proof.
  intros H s. split; [apply Stable_emit_trace; exact H|].
  split; [apply Stable_emit_sig | apply Stable_emit_keep].
Qed.

Lemma Stable_all_SetFailure P now name msg : Stable (Rall P) (SetFailure now name msg).
Proof.
  intros s. split; [apply Stable_SetFailure_trace|].
  split; [apply Stable_SetFailure_sig | apply Stable_SetFailure_keep].
Qed.

Lemma Stable_all_addJob P j : Stable (Rall P) (addJob j).
Proof.
  intros s. split; [|split; [reflexivity | intros k r H; eauto]].
  exists []. rewrite app_nil_r. split; [reflexivity | constructor].
Qed.

Lemma Stable_all_getState P : Stable (Rall P) getState.
Proof. apply Stable_getState. typeclasses eauto. Qed.

Lemma Stable_all_trace {A} P (m : M A) : Stable (Rall P) m -> Stable (Rtrace P) m.
Proof. intros H s. apply H. Qed.

Lemma Stable_trace_getState P : Stable (Rtrace P) getState.
Proof. apply Stable_getState. typeclasses eauto. Qed.

Ltac stable_step :=
  match goal with
  | |- Stable _ (mbind _ _) =>
      apply Stable_bind; [typeclasses eauto | | intros ?]
  | |- Stable _ (mret _) => apply Stable_ret; typeclasses eauto
  | |- Stable (Rall _) (emit _) => apply Stable_all_emit; auto
  | |- Stable (Rall _) (SetFailure _ _ _) => apply Stable_all_SetFailure
  | |- Stable (Rall _) (addJob _) => apply Stable_all_addJob
  | |- Stable (Rall _) getState => apply Stable_all_getState
  | |- Stable (Rtrace _) (emit _) => apply Stable_emit_trace; auto
  | |- Stable (Rtrace _) (SetFailure _ _ _) => apply Stable_SetFailure_trace
  | |- Stable (Rtrace _) getState => apply Stable_trace_getState
  | |- Stable _ (AddAfter _ _) => unfold AddAfter
  | |- _ => case_match
  end.

Lemma verifyLocal_stable (P : Event -> Prop) c record :
  P (EVerifyLocal (Location record)) ->
  Stable (Rall P) (verifyLocal c record).
Proof. intros H. unfold verifyLocal. repeat stable_step. Qed.

Lemma verifyClusterJob_stable (P : Event -> Prop) c releaseName release record :
  P EListJobs -> P (EAddAfter releaseName (10 * Second)) ->
  P (EEnsureJob (auditVerifyJobName (ID record))) ->
  P (ECreateJob (newAuditVerifyJob release record (auditVerifyJobName (ID record)))) ->
  (forall n, P (EPodLookup n)) ->
  Stable (Rall P) (verifyClusterJob c releaseName release record).
Proof.
  intros H1 H2 H3 H4 H5.
  unfold verifyClusterJob, countAuditVerifyJobs, ensureAuditVerifyJob, ensureJob, AddAfter.
  repeat stable_step.
Qed.

(** The first steps of [syncAuditTag] on a record without failure and with
    a digest: load the release, then go on with [auditLoadedRelease]. *)
Lemma syncAuditTag_loaded c name s r release :
  records s !! name = Some r -> Failure r = None ->
  String.length (ID r) <> 0%nat ->
  loadReleaseForSync c (ImageStreamNamespace r) (ImageStreamName r)
    = (Some release, None) ->
  syncAuditTag c name s
  = auditLoadedRelease c name r release
      (mkState (records s) (signatures s) (jobs s)
         (trace s ++ [ELoadRelease (ImageStreamNamespace r) (ImageStreamName r)])).
Proof.
  intros Hr Hf Hid Hl. unfold syncAuditTag, Get, mbind, M_bind. cbn.
  rewrite Hr, Hf. cbn.
  destruct (String.length (ID r)) eqn:E; [congruence|]. cbn.
  unfold loadRelease, mbind, M_bind, emit, mret, M_ret. cbn. rewrite Hl. reflexivity.
Qed.

(** The signature check of [auditLoadedRelease]. *)
Lemma auditLoadedRelease_signed c name r release s :
  existsb (String.eqb (ID r)) (signatures s) = true ->
  auditLoadedRelease c name r release s
  = (None, mkState (records s) (signatures s) (jobs s)
             (trace s ++ [EHasSignature (ID r)])).
Proof.
  intros H. unfold auditLoadedRelease, HasSignature, mbind, M_bind, emit, getState.
  cbn. rewrite H. reflexivity.
Qed.

Lemma auditLoadedRelease_unsigned c name r release s :
  existsb (String.eqb (ID r)) (signatures s) = false ->
  auditLoadedRelease c name r release s
  = (let image := auditCLIImage c release in
     if (String.length image =? 0)%nat then mret None
     else
       v ← (if String.eqb image "local"
            then verifyLocal c r
            else verifyClusterJob c name release r);
       match v with
       | Stop res => mret res
       | Verified => signAndStore c r
       end)
      (mkState (records s) (signatures s) (jobs s)
             (trace s ++ [EHasSignature (ID r)])).
Proof.
  intros H. unfold auditLoadedRelease, HasSignature, mbind, M_bind, emit, getState.
  cbn. rewrite H. reflexivity.
Qed.

(* ------------------------------------------------------------------ *)
(** ** Claims *)

(** C2 (code defect): with two unfinished audit jobs and no job yet for the
    digest, the throttle [count > 2] lets the reconciler create a third
    one, although it logs "Throttling verify jobs to max 2". *)
Theorem C2_third_job_admitted :
  let c := sampleController "quay.io/cli:pinned" "" false in
  let s := sampleState (sampleRecord sampleDigest None)
             [unfinishedAuditJob "verify-other1"; unfinishedAuditJob "verify-other2"] in
  let s' := snd (syncAuditTag c sampleTag s) in
  countUnfinished (filter (fun j => auditVerifyJobSelector j = true) (jobs s)) = 2
  /\ countUnfinished (filter (fun j => auditVerifyJobSelector j = true) (jobs s')) = 3
  /\ In (ECreateJob (newAuditVerifyJob (sampleRelease "") (sampleRecord sampleDigest None)
                      "verify-abcd")) (trace s').
Proof. vm_compute. split; [reflexivity | split; [reflexivity|]]. tauto. Qed.

(** C4 (code defect): the deferred [recover(); panic(err)] of [syncAudit]
    also runs when the body returns normally, and then panics with [nil]:
    [syncAudit] never returns, for every key. *)
Theorem C4_syncAudit_always_panics fid floc c now tick key recs :
  (exists res, syncAuditBody fid floc c now tick key recs = Returned res)
  /\ syncAudit fid floc c now tick key recs = Panicked None.
Proof.
  unfold syncAudit, syncAuditBody, deferRecoverRepanic.
  destruct (loadReleaseForSync c (qnamespace key) (qname key)) as [[rel|] [e|]];
    try (destruct (Sync fid floc now tick rel recs));
    split; eauto.
Qed.

(** C7, counterexample: the job of the digest already exists and has
    completed, but the job listing fails; the reconciler requeues the tag
    without looking the job up. *)
Lemma C7_existing_job_not_polled :
  let record := sampleRecord sampleDigest None in
  let done := mkJob "verify-abcd" {[ releaseAnnotationJobPurpose := "audit" ]} ∅
                "" "" "verify" sampleLocation (Some 5) false 0 in
  let s := sampleState record [done] in
  let s' := snd (syncAuditTag (sampleController "quay.io/cli:pinned" "" true)
                   sampleTag s) in
  auditVerifyJobName (ID record) = jobName done
  /\ trace s' = [ELoadRelease "ocp" "release"; EHasSignature sampleDigest;
                EListJobs; EAddAfter sampleTag (10 * Second)]
  /\ ~ In (EEnsureJob "verify-abcd") (trace s').
Proof.
  vm_compute. split; [reflexivity | split; [reflexivity|]].
  intros H. repeat (destruct H as [H|H]; [discriminate|]). exact H.
Qed.

(** C8, counterexample: a digest without a colon gives a job name without
    the "verify-" prefix. *)
Lemma C8_no_colon_no_prefix :
  auditVerifyJobName "abc" = "abc" /\ String.prefix "verify-" (auditVerifyJobName "abc") = false.
Proof. vm_compute. split; reflexivity. Qed.

(** C5: a tracked record without failure and with an empty digest is marked
    failed on its first reconciliation with a no-digest message; the
    reconciliation returns nil and calls no collaborator (the trace, the
    signature store and the jobs are unchanged). *)
Theorem C5_no_digest_fails_immediately c name s r :
  records s !! name = Some r -> Failure r = None -> ID r = "" -> Name r = name ->
  syncAuditTag c name s
  = (None, mkState
             (<[name := withAtFailure r (clock c)
                  (Some (mkAuditFailure "VerificationFailed"
                     ("Release " ++ name ++ " has no digest and cannot be verified")%string))]>
                (records s))
             (signatures s) (jobs s) (trace s)).
Proof.
  intros Hr Hf Hid Hn. unfold syncAuditTag, Get, mbind, M_bind. cbn.
  rewrite Hr, Hf, Hid. cbn.
  unfold SetFailure, mbind, M_bind, getState, setRecords. cbn.
  rewrite Hn, Hr. reflexivity.
Qed.

Lemma C5_witness :
  let r := sampleRecord "" None in
  let s := sampleState r [] in
  let c := sampleController "local" "" false in
  (records s !! sampleTag = Some r /\ Failure r = None /\ ID r = "" /\ Name r = sampleTag)
  /\ syncAuditTag c sampleTag s
     = (None, mkState
             (<[sampleTag := withAtFailure r (clock c)
                  (Some (mkAuditFailure "VerificationFailed"
                     ("Release " ++ sampleTag ++ " has no digest and cannot be verified")%string))]>
                (records s))
             (signatures s) (jobs s) (trace s)).
Proof.
  cbv zeta.
  assert (H : records (sampleState (sampleRecord "" None) []) !! sampleTag
              = Some (sampleRecord "" None)) by reflexivity.
  split; [repeat split|].
  apply C5_no_digest_fails_immediately; [exact H | reflexivity..].
Defined.

Lemma signAndStore_trace c r s :
  exists suf, trace (snd (signAndStore c r s)) = trace s ++ suf
              /\ Forall isSigningCall suf.
Proof.
  unfold signAndStore, PutSignature, storeSignature, mbind, M_bind, emit, mret, M_ret.
  destruct (signer c) as [sign|]; cbn.
  - destruct (sign (ID r) (Location r)) as [sig|e]; cbn.
    + destruct (putSignatureErr c (ID r)); cbn;
        (eexists; split; [rewrite <- !app_assoc; reflexivity | cbn; repeat constructor]).
    + eexists; split; [reflexivity | repeat constructor].
  - exists []. rewrite app_nil_r. split; [reflexivity | constructor].
Qed.

(** C10: with no pinned audit CLI image on the controller and a release
    whose [OverrideCLIImage] is "local", the reconciler runs the local
    verification command; the only calls after it are signing calls (no
    job is listed, looked up or created). *)
Theorem C10_local_override_selects_local c name s r release :
  records s !! name = Some r -> Failure r = None ->
  String.length (ID r) <> 0%nat ->
  loadReleaseForSync c (ImageStreamNamespace r) (ImageStreamName r)
    = (Some release, None) ->
  existsb (String.eqb (ID r)) (signatures s) = false ->
  cliImageForAudit c = "" -> OverrideCLIImage (Config release) = "local" ->
  exists suf,
    trace (snd (syncAuditTag c name s))
    = trace s ++ [ELoadRelease (ImageStreamNamespace r) (ImageStreamName r);
                  EHasSignature (ID r); EVerifyLocal (Location r)] ++ suf
    /\ Forall isSigningCall suf.
Proof.
  intros Hr Hf Hid Hl Hs Hc Ho.
  rewrite (syncAuditTag_loaded c name s r release Hr Hf Hid Hl).
  rewrite auditLoadedRelease_unsigned by exact Hs.
  unfold auditCLIImage. rewrite Hc, Ho. cbn.
  unfold verifyLocal, mbind, M_bind, emit. cbn.
  destruct (runVerify c (Location r)) as [ok out]. destruct ok; cbn.
  - destruct (signAndStore_trace c r
      (mkState (records s) (signatures s) (jobs s)
         (((trace s ++ [ELoadRelease (ImageStreamNamespace r) (ImageStreamName r)])
             ++ [EHasSignature (ID r)]) ++ [EVerifyLocal (Location r)])))
      as [suf [E F]].
    exists suf. cbn in E. rewrite E, <- !app_assoc. split; [reflexivity | exact F].
  - exists []. unfold SetFailure, mbind, M_bind, getState, setRecords, mret, M_ret. cbn.
    destruct (records s !! Name r); cbn; rewrite <- !app_assoc;
      (split; [reflexivity | constructor]).
Qed.

Lemma C10_witness :
  let r := sampleRecord sampleDigest None in
  let s := sampleState r [] in
  let c := sampleController "" "local" false in
  let release := sampleRelease "local" in
  (records s !! sampleTag = Some r /\ Failure r = None
   /\ String.length (ID r) <> 0%nat
   /\ loadReleaseForSync c (ImageStreamNamespace r) (ImageStreamName r)
      = (Some release, None)
   /\ existsb (String.eqb (ID r)) (signatures s) = false
   /\ cliImageForAudit c = "" /\ OverrideCLIImage (Config release) = "local")
  /\ exists suf,
    trace (snd (syncAuditTag c sampleTag s))
    = trace s ++ [ELoadRelease (ImageStreamNamespace r) (ImageStreamName r);
                  EHasSignature (ID r); EVerifyLocal (Location r)] ++ suf
    /\ Forall isSigningCall suf.
Proof.
  cbv zeta.
  assert (H : records (sampleState (sampleRecord sampleDigest None) []) !! sampleTag
              = Some (sampleRecord sampleDigest None)) by reflexivity.
  split; [repeat split; discriminate|].
  apply (C10_local_override_selects_local _ _ _ _ (sampleRelease "local"));
    [exact H | reflexivity | discriminate | reflexivity..].
Defined.

Lemma syncAuditTag_creates_with_override c name s r release :
  records s !! name = Some r ->
  loadReleaseForSync c (ImageStreamNamespace r) (ImageStreamName r)
    = (Some release, None) ->
  Rtrace (createsWithOverride release) s (snd (syncAuditTag c name s)).
Proof.
  intros Hr Hl.
  destruct (Failure r) as [f|] eqn:Hf.
  - unfold syncAuditTag, Get, mbind, M_bind. cbn. rewrite Hr, Hf. reflexivity.
  - destruct (decide (String.length (ID r) = 0%nat)) as [Hid|Hid].
    + unfold syncAuditTag, Get, mbind, M_bind. cbn. rewrite Hr, Hf, Hid. cbn.
      match goal with
      | |- context [SetFailure ?n ?nm ?m s] =>
          pose proof (Stable_SetFailure_trace (createsWithOverride release) n nm m s)
            as HS; destruct (SetFailure n nm m s)
      end.
      exact HS.
    + rewrite (syncAuditTag_loaded c name s r release Hr Hf Hid Hl).
      set (s1 := mkState _ _ _ _).
      assert (H1 : Rtrace (createsWithOverride release) s s1).
      { exists [ELoadRelease (ImageStreamNamespace r) (ImageStreamName r)].
        split; [reflexivity | repeat constructor; discriminate]. }
      etransitivity; [exact H1|].
      assert (Hs : Stable (Rtrace (createsWithOverride release))
                     (auditLoadedRelease c name r release)).
      { unfold auditLoadedRelease, HasSignature.
        repeat (stable_step; try discriminate).
        - apply Stable_all_trace, verifyLocal_stable; discriminate.
        - apply Stable_all_trace, verifyClusterJob_stable; try discriminate.
          intros j Hj. injection Hj as <-. reflexivity.
        - intros s2.
          destruct (signAndStore_trace c r s2) as [suf [E F]].
          exists suf. split; [exact E|].
          eapply Forall_impl; [exact F|]. intros e He j ->. destruct He. }
      apply (Hs s1).
Qed.

(** C9: the cluster verification job takes its CLI image from the release's
    [OverrideCLIImage], never from the controller's pinned audit CLI image:
    every job created by a reconciliation has the image of the release
    loaded for the record. *)
Theorem C9_job_image_from_override c name s r release j :
  records s !! name = Some r ->
  loadReleaseForSync c (ImageStreamNamespace r) (ImageStreamName r)
    = (Some release, None) ->
  In (ECreateJob j) (trace (snd (syncAuditTag c name s))) ->
  ~ In (ECreateJob j) (trace s) ->
  jobImage j = OverrideCLIImage (Config release).
Proof.
  intros Hr Hl Hin Hnot.
  destruct (syncAuditTag_creates_with_override c name s r release Hr Hl)
    as [suf [E F]].
  rewrite E in Hin. apply in_app_or in Hin as [Hin|Hin]; [contradiction|].
  rewrite List.Forall_forall in F. exact (F _ Hin j eq_refl).
Qed.

(** With a pinned image and no override, the job gets an empty image. *)
Lemma C9_witness :
  let r := sampleRecord sampleDigest None in
  let s := sampleState r [] in
  let c := sampleController "quay.io/cli:pinned" "" false in
  let release := sampleRelease "" in
  let j := newAuditVerifyJob release r (auditVerifyJobName sampleDigest) in
  (records s !! sampleTag = Some r
   /\ loadReleaseForSync c (ImageStreamNamespace r) (ImageStreamName r)
      = (Some release, None)
   /\ In (ECreateJob j) (trace (snd (syncAuditTag c sampleTag s)))
   /\ ~ In (ECreateJob j) (trace s))
  /\ jobImage j = "".
Proof.
  cbv zeta.
  assert (Hin : In (ECreateJob (newAuditVerifyJob (sampleRelease "")
                   (sampleRecord sampleDigest None) (auditVerifyJobName sampleDigest)))
                 (trace (snd (syncAuditTag (sampleController "quay.io/cli:pinned" "" false)
                    sampleTag (sampleState (sampleRecord sampleDigest None) []))))).
  { vm_compute. tauto. }
  split; [split; [reflexivity | split; [reflexivity | split; [exact Hin | cbn; tauto]]]|].
  exact (C9_job_image_from_override (sampleController "quay.io/cli:pinned" "" false)
           sampleTag (sampleState (sampleRecord sampleDigest None) [])
           (sampleRecord sampleDigest None)
           (sampleRelease "") _ eq_refl eq_refl Hin (fun H => H)).
Defined.

Lemma bind_run {A B} (m : M A) (f : A -> M B) s :
  (m ≫= f) s = f (fst (m s)) (snd (m s)).
Proof. unfold mbind, M_bind. destruct (m s). reflexivity. Qed.

Lemma bind_extends {A B} (m : M A) (f : A -> M B) s :
  (forall a, Stable Extends (f a)) ->
  exists suf, trace (snd ((m ≫= f) s)) = trace (snd (m s)) ++ suf.
Proof.
  intros Hf. rewrite bind_run. destruct (Hf (fst (m s)) (snd (m s))) as [suf [E _]].
  eauto.
Qed.

Lemma Stable_extends {A} P (m : M A) : Stable (Rtrace P) m -> Stable Extends m.
Proof.
  intros H s. destruct (H s) as [suf [E F]]. exists suf.
  split; [exact E | eapply Forall_impl; [exact F | tauto]].
Qed.

Lemma signAndStore_extends c r : Stable Extends (signAndStore c r).
Proof.
  intros s. destruct (signAndStore_trace c r s) as [suf [E F]]. exists suf.
  split; [exact E | eapply Forall_impl; [exact F | tauto]].
Qed.

Lemma countAuditVerifyJobs_ok c s :
  jobListErr c = false ->
  countAuditVerifyJobs c s
  = ((countUnfinished (filter (fun j => auditVerifyJobSelector j = true) (jobs s)), true),
     mkState (records s) (signatures s) (jobs s) (trace s ++ [EListJobs])).
Proof.
  intros H. unfold countAuditVerifyJobs, emit, getState, mbind, M_bind. cbn.
  rewrite H. reflexivity.
Qed.

Lemma countAuditVerifyJobs_err c s :
  jobListErr c = true ->
  countAuditVerifyJobs c s
  = ((0, false), mkState (records s) (signatures s) (jobs s) (trace s ++ [EListJobs])).
Proof.
  intros H. unfold countAuditVerifyJobs, emit, getState, mbind, M_bind. cbn.
  rewrite H. reflexivity.
Qed.

Lemma extends_bind {A B} (m : M A) (f : A -> M B) s X :
  (forall a, Stable Extends (f a)) ->
  (exists suf, trace (snd (m s)) = X ++ suf) ->
  exists suf, trace (snd ((m ≫= f) s)) = X ++ suf.
Proof.
  intros Hf [suf1 E1]. destruct (bind_extends m f s Hf) as [suf2 E2].
  exists (suf1 ++ suf2). rewrite E2, E1, app_assoc. reflexivity.
Qed.

Lemma ex_reassoc2 (t X Y : list Event) :
  (exists suf, t = (X ++ Y) ++ suf) -> exists suf, t = X ++ Y ++ suf.
Proof. intros [suf E]. exists suf. rewrite E, app_assoc. reflexivity. Qed.

Lemma ex_reassoc3 (t X Y Z : list Event) :
  (exists suf, t = (X ++ Y ++ Z) ++ suf) -> exists suf, t = X ++ Y ++ Z ++ suf.
Proof. intros [suf E]. exists suf. rewrite E, <- !app_assoc. reflexivity. Qed.

Ltac extends_tac :=
  intros; apply (Stable_extends (fun _ => True));
  repeat stable_step; try exact I; try apply Stable_all_trace, Stable_all_addJob.

(** An admitted cluster-job reconciliation lists the jobs, then acquires
    the job of the digest by name. *)
Lemma verifyClusterJob_admitted c name release r s :
  jobListErr c = false ->
  (2 <? countUnfinished (filter (fun j => auditVerifyJobSelector j = true) (jobs s)))
  = false ->
  exists suf, trace (snd (verifyClusterJob c name release r s))
              = trace s ++ [EListJobs; EEnsureJob (auditVerifyJobName (ID r))] ++ suf.
Proof.
  intros Hl Hc. unfold verifyClusterJob. rewrite bind_run, countAuditVerifyJobs_ok by exact Hl.
  cbn [fst snd]. cbv beta iota. rewrite Hc. cbn [negb orb].
  apply ex_reassoc2.
  apply extends_bind; [extends_tac|].
  unfold ensureAuditVerifyJob, ensureJob.
  apply extends_bind; [extends_tac|].
  exists []. cbn. rewrite <- !app_assoc. reflexivity.
Qed.

(** C7 (as the code has it): in cluster-job mode the admission check runs
    first, on every reconciliation, before the job is looked up by name.
    When the listing fails or more than 2 audit jobs are unfinished, the tag
    is requeued after 10 seconds and nothing else happens (no job lookup or
    creation, no store or record change); otherwise the job of the digest is
    acquired by its name next. *)
Theorem C7_throttle_before_job_lookup c name s r release :
  records s !! name = Some r -> Failure r = None ->
  String.length (ID r) <> 0%nat ->
  loadReleaseForSync c (ImageStreamNamespace r) (ImageStreamName r)
    = (Some release, None) ->
  existsb (String.eqb (ID r)) (signatures s) = false ->
  String.length (auditCLIImage c release) <> 0%nat ->
  auditCLIImage c release <> "local" ->
  let pre := [ELoadRelease (ImageStreamNamespace r) (ImageStreamName r);
              EHasSignature (ID r); EListJobs] in
  let count := countUnfinished (filter (fun j => auditVerifyJobSelector j = true)
                                       (jobs s)) in
  if jobListErr c || (2 <? count) then
    syncAuditTag c name s
    = (None, mkState (records s) (signatures s) (jobs s)
               (trace s ++ pre ++ [EAddAfter name (10 * Second)]))
  else
    exists suf, trace (snd (syncAuditTag c name s))
                = trace s ++ pre ++ [EEnsureJob (auditVerifyJobName (ID r))] ++ suf.
Proof.
  intros Hr Hf Hid Hl Hs Hi Hloc pre count.
  rewrite (syncAuditTag_loaded c name s r release Hr Hf Hid Hl).
  rewrite auditLoadedRelease_unsigned by exact Hs. cbv zeta.
  destruct (String.length (auditCLIImage c release) =? 0)%nat eqn:E0;
    [apply Nat.eqb_eq in E0; contradiction|].
  destruct (String.eqb (auditCLIImage c release) "local") eqn:E1;
    [apply String.eqb_eq in E1; contradiction|].
  cbv beta iota. subst pre count.
  destruct (jobListErr c) eqn:El; cbn [orb].
  - rewrite bind_run. unfold verifyClusterJob. rewrite bind_run.
    rewrite countAuditVerifyJobs_err by exact El.
    unfold AddAfter, emit, mbind, M_bind, mret, M_ret. cbn.
    rewrite <- !app_assoc. reflexivity.
  - destruct (2 <? countUnfinished _) eqn:Ec.
    + rewrite bind_run. unfold verifyClusterJob. rewrite bind_run.
      rewrite countAuditVerifyJobs_ok by exact El. cbn. rewrite Ec.
      unfold AddAfter, emit, mbind, M_bind, mret, M_ret. cbn.
      rewrite <- !app_assoc. reflexivity.
    + apply ex_reassoc3.
      apply extends_bind.
      { intros [|res]; [apply signAndStore_extends|]. extends_tac. }
      match goal with
      | |- context [verifyClusterJob _ _ _ _ ?S] =>
          destruct (verifyClusterJob_admitted c name release r S El Ec) as [suf1 E1']
      end.
      rewrite E1'. exists suf1. cbn. rewrite <- !app_assoc. reflexivity.
Qed.

Lemma C7_witness :
  let c := sampleController "quay.io/cli:pinned" "" true in
  let r := sampleRecord sampleDigest None in
  let s := sampleState r [] in
  let release := sampleRelease "" in
  (records s !! sampleTag = Some r /\ Failure r = None
   /\ String.length (ID r) <> 0%nat
   /\ loadReleaseForSync c (ImageStreamNamespace r) (ImageStreamName r)
      = (Some release, None)
   /\ existsb (String.eqb (ID r)) (signatures s) = false
   /\ String.length (auditCLIImage c release) <> 0%nat
   /\ auditCLIImage c release <> "local")
  /\ (let pre := [ELoadRelease (ImageStreamNamespace r) (ImageStreamName r);
                  EHasSignature (ID r); EListJobs] in
      let count := countUnfinished (filter (fun j => auditVerifyJobSelector j = true)
                                           (jobs s)) in
      if jobListErr c || (2 <? count) then
        syncAuditTag c sampleTag s
        = (None, mkState (records s) (signatures s) (jobs s)
                   (trace s ++ pre ++ [EAddAfter sampleTag (10 * Second)]))
      else
        exists suf, trace (snd (syncAuditTag c sampleTag s))
                    = trace s ++ pre ++ [EEnsureJob (auditVerifyJobName (ID r))] ++ suf).
Proof.
  cbv zeta.
  split; [repeat split; discriminate|].
  apply (C7_throttle_before_job_lookup _ _ _ _ (sampleRelease ""));
    [reflexivity | reflexivity | discriminate | reflexivity | reflexivity
    | discriminate | discriminate].
Defined.

Lemma substring_length_le n s : (String.length (substring 0 n s) <= n)%nat.
Proof.
  revert s. induction n as [|n IH]; intros [|ch s]; cbn; try lia.
  specialize (IH s). lia.
Qed.

Lemma substring_colonFree n s :
  colonFree s = true -> colonFree (substring 0 n s) = true.
Proof.
  revert s. induction n as [|n IH]; intros [|ch s]; cbn; auto.
  intros H. apply andb_true_iff in H as [H1 H2]. rewrite H1. cbn. auto.
Qed.

Lemma replaceColonDash_colonFree s : colonFree (replaceColonDash s) = true.
Proof.
  induction s as [|ch s IH]; cbn; auto.
  destruct (Ascii.eqb ch ":") eqn:E; cbn; rewrite IH; [reflexivity|].
  rewrite E. reflexivity.
Qed.

Lemma replaceColonDash_id s : colonFree s = true -> replaceColonDash s = s.
Proof.
  induction s as [|ch s IH]; cbn; auto.
  intros H. apply andb_true_iff in H as [H1 H2].
  destruct (Ascii.eqb ch ":"); [discriminate|]. rewrite IH; auto.
Qed.

Lemma cutColon_None s : cutColon s = None -> colonFree s = true.
Proof.
  induction s as [|ch s IH]; cbn; auto.
  destruct (Ascii.eqb ch ":"); [discriminate|].
  destruct (cutColon s) as [[a b]|]; [discriminate|]. auto.
Qed.

Lemma substring_all n s : (String.length s <= n)%nat -> substring 0 n s = s.
Proof.
  revert n. induction s as [|ch s IH]; intros [|n] H; cbn in *; try reflexivity; try lia.
  rewrite IH by lia. reflexivity.
Qed.

Lemma replaceColonDash_length s : String.length (replaceColonDash s) = String.length s.
Proof. induction s as [|ch s IH]; cbn; [reflexivity | rewrite IH; reflexivity]. Qed.

Lemma auditVerifyJobName_colon id alg rest :
  cutColon id = Some (alg, rest) ->
  auditVerifyJobName id = ("verify-" ++ substring 0 56 (replaceColonDash rest))%string.
Proof.
  intros H. unfold auditVerifyJobName, SplitN2Colon. rewrite H.
  change (replaceColonDash ("verify-" ++ rest))
    with ("verify-" ++ replaceColonDash rest)%string.
  replace (String.length ("verify-" ++ replaceColonDash rest))
    with (7 + String.length (replaceColonDash rest))%nat by reflexivity.
  destruct (63 <? 7 + String.length (replaceColonDash rest))%nat eqn:E.
  - reflexivity.
  - apply Nat.ltb_ge in E. rewrite substring_all by lia. reflexivity.
Qed.

Lemma auditVerifyJobName_nocolon id :
  cutColon id = None -> auditVerifyJobName id = substring 0 63 id.
Proof.
  intros H. unfold auditVerifyJobName, SplitN2Colon. rewrite H.
  rewrite replaceColonDash_id by (apply cutColon_None; exact H).
  destruct (63 <? String.length id)%nat eqn:E; [reflexivity|].
  apply Nat.ltb_ge in E. rewrite substring_all by exact E. reflexivity.
Qed.

Lemma truncate63_cases (name : string) :
  (if (63 <? String.length name)%nat then substring 0 63 name else name)
  = substring 0 63 name \/
  (if (63 <? String.length name)%nat then substring 0 63 name else name) = name
  /\ (String.length name <= 63)%nat.
Proof.
  destruct (63 <? String.length name)%nat eqn:E; [left; reflexivity|].
  right. split; [reflexivity|]. apply Nat.ltb_ge in E. exact E.
Qed.

(** C8 (as the code has it): the job name is a function of the digest
    alone, has no colon and at most 63 characters. When the digest has a
    colon, the name is "verify-" followed by the part after the first colon
    (the algorithm part is dropped), its colons replaced by dashes, cut to
    56 characters. A digest without a colon is the name itself, cut to 63
    characters, with no prefix. *)
Theorem C8_job_name_shape id :
  (String.length (auditVerifyJobName id) <= 63)%nat
  /\ colonFree (auditVerifyJobName id) = true
  /\ (forall alg rest, cutColon id = Some (alg, rest) ->
        auditVerifyJobName id = ("verify-" ++ substring 0 56 (replaceColonDash rest))%string)
  /\ (cutColon id = None -> auditVerifyJobName id = substring 0 63 id).
Proof.
  split; [|split; [|split]].
  - unfold auditVerifyJobName.
    match goal with |- context [if _ then substring 0 63 ?n else ?n] =>
      destruct (truncate63_cases n) as [E|[E L]]; rewrite E;
      [apply substring_length_le | exact L] end.
  - unfold auditVerifyJobName.
    match goal with |- context [if _ then substring 0 63 ?n else ?n] =>
      destruct (truncate63_cases n) as [E|[E L]]; rewrite E end;
      [apply substring_colonFree|]; apply replaceColonDash_colonFree.
  - intros alg rest H. exact (auditVerifyJobName_colon id alg rest H).
  - exact (auditVerifyJobName_nocolon id).
Qed.

Lemma C8_witness :
  (cutColon "sha256:ab:cd" = Some ("sha256", "ab:cd")
   /\ auditVerifyJobName "sha256:ab:cd" = "verify-ab-cd"
   /\ ((String.length (auditVerifyJobName "sha256:ab:cd") <= 63)%nat
       /\ colonFree (auditVerifyJobName "sha256:ab:cd") = true
       /\ (forall alg rest, cutColon "sha256:ab:cd" = Some (alg, rest) ->
             auditVerifyJobName "sha256:ab:cd"
             = ("verify-" ++ substring 0 56 (replaceColonDash rest))%string)
       /\ (cutColon "sha256:ab:cd" = None ->
             auditVerifyJobName "sha256:ab:cd" = substring 0 63 "sha256:ab:cd")))
  /\ (cutColon "abcd" = None
      /\ auditVerifyJobName "abcd" = "abcd"
      /\ ((String.length (auditVerifyJobName "abcd") <= 63)%nat
          /\ colonFree (auditVerifyJobName "abcd") = true
          /\ (forall alg rest, cutColon "abcd" = Some (alg, rest) ->
                auditVerifyJobName "abcd"
                = ("verify-" ++ substring 0 56 (replaceColonDash rest))%string)
          /\ (cutColon "abcd" = None ->
                auditVerifyJobName "abcd" = substring 0 63 "abcd"))).
Proof.
  split.
  - split; [reflexivity | split; [vm_compute; reflexivity | exact (C8_job_name_shape "sha256:ab:cd")]].
  - split; [reflexivity | split; [vm_compute; reflexivity | exact (C8_job_name_shape "abcd")]].
Defined.

(* ------------------------------------------------------------------ *)
(** ** At-most-once signing *)

Lemma syncAuditTag_notloaded c name s r rel err :
  records s !! name = Some r -> Failure r = None ->
  String.length (ID r) <> 0%nat ->
  loadReleaseForSync c (ImageStreamNamespace r) (ImageStreamName r) = (rel, err) ->
  (forall release, (rel, err) <> (Some release, None)) ->
  syncAuditTag c name s
  = (err, mkState (records s) (signatures s) (jobs s)
            (trace s ++ [ELoadRelease (ImageStreamNamespace r) (ImageStreamName r)])).
Proof.
  intros Hr Hf Hid Hl Hn. unfold syncAuditTag, Get, mbind, M_bind. cbn.
  rewrite Hr, Hf. cbn.
  destruct (String.length (ID r)) eqn:E; [congruence|]. cbn.
  unfold loadRelease, mbind, M_bind, emit, mret, M_ret. cbn. rewrite Hl.
  destruct rel as [release|]; [destruct err; [reflexivity|]|reflexivity].
  exfalso. exact (Hn release eq_refl).
Qed.

Lemma syncAuditTag_failed c name s r f :
  records s !! name = Some r -> Failure r = Some f ->
  syncAuditTag c name s = (None, s).
Proof.
  intros Hr Hf. unfold syncAuditTag, Get, mbind, M_bind. cbn. rewrite Hr, Hf.
  reflexivity.
Qed.

Lemma syncAuditTag_nodigest_stable P c name s r :
  records s !! name = Some r -> Failure r = None -> String.length (ID r) = 0%nat ->
  Rall P s (snd (syncAuditTag c name s)).
Proof.
  intros Hr Hf Hid. unfold syncAuditTag, Get, mbind, M_bind. cbn. rewrite Hr, Hf, Hid.
  cbn.
  match goal with
  | |- context [SetFailure ?n ?nm ?m s] =>
      pose proof (Stable_all_SetFailure P n nm m s) as HS; destruct (SetFailure n nm m s)
  end.
  exact HS.
Qed.

Lemma load_cases (rel : option ReleaseT) (err : option string) :
  (exists release, rel = Some release /\ err = None)
  \/ (forall release, (rel, err) <> (Some release, None)).
Proof.
  destruct rel as [release|]; [destruct err|].
  - right. intros ? E. discriminate.
  - left. eauto.
  - right. intros ? E. discriminate.
Qed.

(** A reconciliation of a tag whose digest is signed only reads. *)
Lemma syncAuditTag_signed c name s r :
  records s !! name = Some r ->
  existsb (String.eqb (ID r)) (signatures s) = true ->
  Rall isLookupCall s (snd (syncAuditTag c name s)).
Proof.
  intros Hr Hs.
  destruct (Failure r) as [f|] eqn:Hf.
  { rewrite (syncAuditTag_failed c name s r f Hr Hf). reflexivity. }
  destruct (decide (String.length (ID r) = 0%nat)) as [Hid|Hid].
  { apply (syncAuditTag_nodigest_stable _ _ _ _ r); assumption. }
  destruct (loadReleaseForSync c (ImageStreamNamespace r) (ImageStreamName r))
    as [rel err] eqn:Hl.
  destruct (load_cases rel err) as [[release [-> ->]]|Hn].
  - rewrite (syncAuditTag_loaded c name s r release Hr Hf Hid Hl).
    rewrite auditLoadedRelease_signed by exact Hs. cbn.
    split; [|split; [reflexivity | intros k r' H; eauto]].
    eexists. rewrite <- app_assoc. split; [reflexivity | repeat constructor].
  - rewrite (syncAuditTag_notloaded c name s r rel err Hr Hf Hid Hl Hn).
    cbn. split; [|split; [reflexivity | intros k r' H; eauto]].
    eexists. split; [reflexivity | repeat constructor].
Qed.

Lemma PutOnce_of_all d s s' : Rall noPutOk s s' -> PutOnce d s s'.
Proof. intros [A [_ C]]. split; [exact C | left; exact A]. Qed.

Lemma PutOnce_after d s1 s2 s3 :
  Rall noPutOk s1 s2 -> PutOnce d s2 s3 -> PutOnce d s1 s3.
Proof.
  intros [[l1 [E1 F1]] [_ K1]] [K2 [[l2 [E2 F2]] | [l2 [E2 [F2 S2]]]]].
  - split; [etransitivity; eauto|]. left. exists (l1 ++ l2).
    rewrite E2, E1, app_assoc. split; [reflexivity | apply Forall_app; auto].
  - split; [etransitivity; eauto|]. right. exists (l1 ++ l2).
    rewrite E2, E1, <- !app_assoc. split; [reflexivity|].
    split; [apply Forall_app; auto | exact S2].
Qed.

Lemma bind_PutOnce {A B} d (m : M A) (f : A -> M B) :
  Stable (Rall noPutOk) m -> (forall a s, PutOnce d s (snd (f a s))) ->
  forall s, PutOnce d s (snd ((m ≫= f) s)).
Proof.
  intros Hm Hf s. rewrite bind_run. eapply PutOnce_after; [apply Hm | apply Hf].
Qed.

Lemma signAndStore_PutOnce c r s : PutOnce (ID r) s (snd (signAndStore c r s)).
Proof.
  unfold signAndStore, PutSignature, storeSignature, mbind, M_bind, emit, mret, M_ret.
  destruct (signer c) as [sign|]; cbn.
  - destruct (sign (ID r) (Location r)) as [sig|e]; cbn.
    + destruct (putSignatureErr c (ID r)); cbn.
      * split; [intros k r' H; eauto|]. left.
        eexists; split; [rewrite <- !app_assoc; reflexivity|].
        cbn. repeat constructor; intros d H; discriminate.
      * split; [intros k r' H; eauto|]. right.
        exists [ESign (ID r) (Location r)]. rewrite <- !app_assoc.
        split; [reflexivity|]. split; [repeat constructor; intros d H; discriminate|].
        cbn. rewrite String.eqb_refl. reflexivity.
    + split; [intros k r' H; eauto|]. left.
      eexists; split; [reflexivity | repeat constructor; intros d H; discriminate].
  - apply PutOnce_of_all. reflexivity.
Qed.

Lemma auditLoadedRelease_PutOnce c name r release s :
  PutOnce (ID r) s (snd (auditLoadedRelease c name r release s)).
Proof.
  unfold auditLoadedRelease. revert s. apply bind_PutOnce.
  { unfold HasSignature. repeat stable_step. intros d H; discriminate. }
  intros hasSig s. destruct hasSig; [apply PutOnce_of_all; reflexivity|].
  cbv zeta. destruct (String.length (auditCLIImage c release) =? 0)%nat;
    [apply PutOnce_of_all; reflexivity|].
  revert s. apply bind_PutOnce.
  - destruct (String.eqb (auditCLIImage c release) "local").
    + apply verifyLocal_stable. intros d H; discriminate.
    + apply verifyClusterJob_stable; try (intros d H; discriminate);
        intros n d H; discriminate.
  - intros [|res] s; [apply signAndStore_PutOnce | apply PutOnce_of_all; reflexivity].
Qed.

Lemma syncAuditTag_PutOnce c name s r :
  records s !! name = Some r -> PutOnce (ID r) s (snd (syncAuditTag c name s)).
Proof.
  intros Hr.
  destruct (Failure r) as [f|] eqn:Hf.
  { rewrite (syncAuditTag_failed c name s r f Hr Hf). apply PutOnce_of_all. reflexivity. }
  destruct (decide (String.length (ID r) = 0%nat)) as [Hid|Hid].
  { apply PutOnce_of_all, (syncAuditTag_nodigest_stable _ _ _ _ r); assumption. }
  destruct (loadReleaseForSync c (ImageStreamNamespace r) (ImageStreamName r))
    as [rel err] eqn:Hl.
  destruct (load_cases rel err) as [[release [-> ->]]|Hn].
  - rewrite (syncAuditTag_loaded c name s r release Hr Hf Hid Hl).
    eapply PutOnce_after; [|apply auditLoadedRelease_PutOnce].
    split; [|split; [reflexivity | intros k r' H; eauto]].
    exists [ELoadRelease (ImageStreamNamespace r) (ImageStreamName r)].
    split; [reflexivity | repeat constructor; intros d H; discriminate].
  - rewrite (syncAuditTag_notloaded c name s r rel err Hr Hf Hid Hl Hn).
    apply PutOnce_of_all. split; [|split; [reflexivity | intros k r' H; eauto]].
    eexists. split; [reflexivity | repeat constructor; intros d H; discriminate].
Qed.

Lemma reconcileN_step c name k s :
  snd (reconcileN c name (S k) s)
  = snd (reconcileN c name k (snd (syncAuditTag c name s))).
Proof. cbn [reconcileN]. rewrite bind_run. reflexivity. Qed.

Lemma reconcileN_signed c name n s r :
  records s !! name = Some r ->
  existsb (String.eqb (ID r)) (signatures s) = true ->
  Rall isLookupCall s (snd (reconcileN c name n s)).
Proof.
  revert s r. induction n as [|k IH]; intros s r Hr Hs; [reflexivity|].
  rewrite reconcileN_step.
  pose proof (syncAuditTag_signed c name s r Hr Hs) as H1.
  destruct H1 as [T1 [S1 K1]].
  destruct (K1 _ _ Hr) as [r1 [Hr1 Hid1]].
  etransitivity; [split; [exact T1 | split; [exact S1 | exact K1]]|].
  apply (IH _ r1 Hr1). rewrite Hid1, S1. exact Hs.
Qed.

Lemma lookup_noPutOk e : isLookupCall e -> noPutOk e.
Proof. destruct e; cbn; try contradiction; intros _ d H; discriminate. Qed.

Lemma reconcileN_SignsOnce c name n s r :
  records s !! name = Some r -> SignsOnce (ID r) s (snd (reconcileN c name n s)).
Proof.
  revert s r. induction n as [|k IH]; intros s r Hr.
  { split; [reflexivity | left; reflexivity]. }
  rewrite reconcileN_step.
  destruct (syncAuditTag_PutOnce c name s r Hr) as [K1 [T1 | [suf [E1 [F1 S1]]]]];
    destruct (K1 _ _ Hr) as [r1 [Hr1 Hid1]].
  - pose proof (IH _ r1 Hr1) as H2. rewrite Hid1 in H2.
    destruct H2 as [K2 [T2 | [suf [post [E2 [F2 [P2 S2]]]]]]].
    + split; [etransitivity; eauto | left; etransitivity; eauto].
    + destruct T1 as [l1 [E1 F1]].
      split; [etransitivity; eauto|]. right. exists (l1 ++ suf), post.
      rewrite E2, E1, <- !app_assoc. repeat split; auto. apply Forall_app; auto.
  - pose proof (reconcileN_signed c name k _ r1 Hr1) as [[post [E2 P2]] [S2 K2]].
    { rewrite Hid1. exact S1. }
    split; [etransitivity; eauto|]. right. exists suf, post.
    rewrite E2, E1, <- !app_assoc. repeat split; auto.
    unfold Rsig in S2. rewrite S2. exact S1.
Qed.

Lemma noPut_split (d : string) suf post pre post' :
  Forall noPutOk suf ->
  suf ++ EPutSignature d true :: post = pre ++ EPutSignature d true :: post' ->
  exists mid, post = mid ++ post'.
Proof.
  revert pre. induction suf as [|x suf IH]; intros pre Hf E.
  - destruct pre as [|y pre].
    + exists []. cbn in E. injection E as E. exact E.
    + cbn in E. injection E as _ E. exists (pre ++ [EPutSignature d true]).
      rewrite E, <- app_assoc. reflexivity.
  - inversion Hf as [|? ? Hx Hsuf]; subst.
    destruct pre as [|y pre].
    + cbn in E. injection E as -> _. exfalso. exact (Hx d eq_refl).
    + cbn in E. injection E as _ E. exact (IH pre Hsuf E).
Qed.

(** Claim C1 (at-most-once signing). For a tracked tag whose record carries
    digest [ID r]: if the store already holds a signature for that digest,
    any number of reconciliations of the tag make no call besides release
    loads and signature lookups (no verification, no [Sign], no
    [PutSignature]); and in any run of reconciliations, everything after a
    successful [PutSignature] of the digest is again only such lookups, so
    [Sign] and [PutSignature] are not invoked after the first successful
    upload, which therefore happens at most once. *)
Theorem C1_at_most_once_signing c name s r :
  records s !! name = Some r ->
  (existsb (String.eqb (ID r)) (signatures s) = true ->
   forall n, Rtrace isLookupCall s (snd (reconcileN c name n s)))
  /\ (forall n pre post,
        trace (snd (reconcileN c name n s))
        = trace s ++ pre ++ EPutSignature (ID r) true :: post ->
        Forall isLookupCall post).
Proof.
  intros Hr. split.
  - intros Hs n. apply (reconcileN_signed c name n s r Hr Hs).
  - intros n pre post E.
    destruct (reconcileN_SignsOnce c name n s r Hr)
      as [_ [[l [El Fl]] | [suf [post0 [E0 [F0 [P0 _]]]]]]].
    + rewrite El in E. apply app_inv_head in E. subst l.
      apply List.Forall_app in Fl as [_ Fl]. inversion Fl as [|? ? Hx _].
      exfalso. exact (Hx (ID r) eq_refl).
    + rewrite E0 in E. apply app_inv_head in E.
      destruct (noPut_split (ID r) suf post0 pre post F0 E) as [mid ->].
      apply List.Forall_app in P0 as [_ P0]. exact P0.
Qed.

Lemma C1_witness :
  let r := sampleRecord sampleDigest None in
  let s := sampleState r [] in
  let c := sampleController "local" "" false in
  records s !! sampleTag = Some r
  /\ forall pre post,
       trace (snd (reconcileN c sampleTag 3 s))
       = trace s ++ pre ++ EPutSignature (ID r) true :: post ->
       Forall isLookupCall post.
Proof.
  cbv zeta.
  assert (H : records (sampleState (sampleRecord sampleDigest None) []) !! sampleTag
              = Some (sampleRecord sampleDigest None)) by reflexivity.
  split; [exact H|].
  exact (proj2 (C1_at_most_once_signing (sampleController "local" "" false) sampleTag
                  _ _ H) 3%nat).
Defined.

(* ------------------------------------------------------------------ *)
(** ** Facts about the loop of [Sync] *)

Section SyncFacts.

Variable fid : ImageStream -> string -> string.
Variable fpull : ImageStream -> string -> string.

Lemma syncTags_app now tick release i l1 l2 acc :
  syncTags fid fpull now tick release i (l1 ++ l2) acc
  = syncTags fid fpull now tick release (i + length l1) l2
      (syncTags fid fpull now tick release i l1 acc).
Proof.
  revert i acc. induction l1 as [|u l1 IH]; intros i acc; cbn.
  - rewrite Nat.add_0_r. reflexivity.
  - rewrite IH. f_equal. lia.
Qed.

Lemma syncTag_found now clk release acc u :
  (syncTag fid fpull now clk release acc u).1.2
  = acc.1.2 ++ (if recognizedTag u then [tagName u] else []).
Proof.
  destruct acc as [[recs found] added]. unfold syncTag.
  destruct (recognizedTag u); cbn; [|rewrite app_nil_r; reflexivity].
  destruct (recs !! tagName u); [|reflexivity].
  destruct (12 * Hour <? clk - At a); reflexivity.
Qed.

Lemma syncTags_found now tick release i l acc :
  (syncTags fid fpull now tick release i l acc).1.2 = acc.1.2 ++ foundNames l.
Proof.
  revert i acc. induction l as [|u l IH]; intros i acc; cbn.
  - rewrite app_nil_r. reflexivity.
  - rewrite IH, syncTag_found, <- app_assoc. f_equal.
    unfold foundNames. cbn. destruct (recognizedTag u); reflexivity.
Qed.

Lemma syncTag_frame now clk release acc u k :
  (recognizedTag u = true -> tagName u <> k) ->
  (syncTag fid fpull now clk release acc u).1.1 !! k = acc.1.1 !! k.
Proof.
  intros Hk. destruct acc as [[recs found] added]. unfold syncTag.
  destruct (recognizedTag u); cbn; [|reflexivity].
  specialize (Hk eq_refl).
  destruct (recs !! tagName u); [destruct (12 * Hour <? clk - At a)|]; cbn;
    try reflexivity; apply lookup_insert_ne; exact Hk.
Qed.

Lemma syncTags_frame now tick release i l acc k :
  Forall (fun u => recognizedTag u = true -> tagName u <> k) l ->
  (syncTags fid fpull now tick release i l acc).1.1 !! k = acc.1.1 !! k.
Proof.
  revert i acc. induction l as [|u l IH]; intros i acc Hf; cbn; [reflexivity|].
  inversion Hf as [|? ? Hu Hl]; subst.
  rewrite IH by exact Hl. apply syncTag_frame. exact Hu.
Qed.

Lemma frame_of_not_found l k :
  k ∉ foundNames l -> Forall (fun u => recognizedTag u = true -> tagName u <> k) l.
Proof.
  intros Hk. apply List.Forall_forall. intros u Hu Hr <-. apply Hk.
  unfold foundNames. apply list_elem_of_fmap_2. apply list_elem_of_filter.
  split; [exact Hr | apply list_elem_of_In; exact Hu].
Qed.

Lemma syncTag_keeps now clk release acc u k :
  is_Some (acc.1.1 !! k) -> is_Some ((syncTag fid fpull now clk release acc u).1.1 !! k).
Proof.
  intros Hk. destruct acc as [[recs found] added]. unfold syncTag.
  destruct (recognizedTag u); cbn; [|exact Hk].
  destruct (recs !! tagName u); [destruct (12 * Hour <? clk - At a)|]; cbn;
    try exact Hk; (destruct (decide (tagName u = k)) as [<-|Hne];
    [rewrite lookup_insert_eq; eexists; reflexivity
    | rewrite lookup_insert_ne by exact Hne; exact Hk]).
Qed.

Lemma syncTag_adds now clk release acc u :
  recognizedTag u = true ->
  is_Some ((syncTag fid fpull now clk release acc u).1.1 !! tagName u).
Proof.
  intros Hu. destruct acc as [[recs found] added]. unfold syncTag. rewrite Hu. cbn.
  destruct (recs !! tagName u) eqn:E; [destruct (12 * Hour <? clk - At a)|]; cbn;
    try (rewrite lookup_insert_eq; eexists; reflexivity).
  rewrite E. eexists; reflexivity.
Qed.

Lemma syncTags_keeps now tick release i l acc k :
  is_Some (acc.1.1 !! k) -> is_Some ((syncTags fid fpull now tick release i l acc).1.1 !! k).
Proof.
  revert i acc. induction l as [|u l IH]; intros i acc Hk; cbn; [exact Hk|].
  apply IH, syncTag_keeps, Hk.
Qed.

Lemma syncTags_found_present now tick release i l acc k :
  k ∈ foundNames l -> is_Some ((syncTags fid fpull now tick release i l acc).1.1 !! k).
Proof.
  revert i acc. induction l as [|u l IH]; intros i acc Hk.
  - unfold foundNames in Hk. cbn in Hk. apply elem_of_nil in Hk. contradiction.
  - unfold foundNames in Hk. rewrite filter_cons in Hk. cbn.
    destruct (decide (recognizedTag u = true)) as [Hu|Hu].
    + apply elem_of_cons in Hk as [->|Hk].
      * apply syncTags_keeps, syncTag_adds, Hu.
      * apply IH, Hk.
    + apply IH, Hk.
Qed.

(** One iteration on a recognized tag whose name is already tracked. *)
Lemma syncTag_existing now clk release recs found added t ex :
  recognizedTag t = true -> recs !! tagName t = Some ex ->
  syncTag fid fpull now clk release (recs, found, added) t
  = if 12 * Hour <? clk - At ex
    then (<[tagName t := withAtFailure ex now None]> recs,
          found ++ [tagName t], added ++ [tagName t])
    else (recs, found ++ [tagName t],
          if negb (String.eqb (Location ex) (fpull (Target release) (tagName t)))
             || negb (String.eqb (ID ex) (fid (Target release) (tagName t)))
          then added ++ [tagName t] else added).
Proof. intros Hr Hex. unfold syncTag. rewrite Hr, Hex. reflexivity. Qed.

Lemma syncTags_added_mono now tick release i l acc :
  exists more, (syncTags fid fpull now tick release i l acc).2 = acc.2 ++ more.
Proof.
  revert i acc. induction l as [|u l IH]; intros i acc; cbn.
  - exists []. rewrite app_nil_r. reflexivity.
  - destruct (IH (S i) (syncTag fid fpull now (tick i) release acc u)) as [m Hm].
    rewrite Hm. destruct acc as [[recs found] added]. unfold syncTag.
    destruct (recognizedTag u); cbn; [|exists m; reflexivity].
    destruct (recs !! tagName u); [destruct (12 * Hour <? tick i - At a)|]; cbn;
      [| destruct (_ || _)|];
      first [exists ([tagName u] ++ m); rewrite <- app_assoc; reflexivity
            | exists m; reflexivity].
Qed.

Lemma Sync_stable now tick release recs :
  cfgAs (Config release) = releaseConfigModeStable ->
  Sync fid fpull now tick release recs
  = let acc := syncTags fid fpull now tick release 0 (specTags (Target release))
                 (recs, [], []) in
    (filter (fun kv : string * AuditRecord =>
               Release kv.2 <> cfgName (Config release)
               \/ kv.1 ∈ foundNames (specTags (Target release))) acc.1.1,
     acc.2).
Proof.
  intros Hs. unfold Sync. rewrite Hs, String.eqb_refl. cbn -[syncTags].
  pose proof (syncTags_found now tick release 0 (specTags (Target release))
                (recs, [], [])) as Hf.
  destruct (syncTags _ _ _ _ _ _ _ _) as [[r f] a]. cbn in Hf |- *.
  rewrite Hf. reflexivity.
Qed.

End SyncFacts.

Lemma foundNames_mid pre t post :
  recognizedTag t = true -> tagName t ∈ foundNames (pre ++ t :: post).
Proof.
  intros Ht. unfold foundNames. apply list_elem_of_fmap_2, list_elem_of_filter.
  split; [exact Ht|]. apply elem_of_app. right. apply elem_of_cons. left. reflexivity.
Qed.

Lemma reconcileN_failed c name n s r f :
  records s !! name = Some r -> Failure r = Some f -> reconcileN c name n s = (tt, s).
Proof.
  intros Hr Hf. induction n as [|k IH]; [reflexivity|].
  cbn [reconcileN]. unfold mbind, M_bind.
  rewrite (syncAuditTag_failed c name s r f Hr Hf). exact IH.
Qed.

(** Claim C3 (sticky failure). (1) While the record of a tag carries a
    failure, any number of reconciliations of the tag return nil and leave
    the state, trace of external calls included, unchanged. (2) In a [Sync]
    in stable mode of a release listing a recognized tag [t] once, whose name
    is already tracked by [ex], the record becomes [ex] with [At] refreshed
    and the failure cleared exactly when more than 12 hours separate the
    clock read in that iteration from [At ex], and stays [ex] (failure
    included) otherwise; the tag is queued when the failure is cleared or
    when the ID or location of [ex] differ from the stream's. *)
Theorem C3_sticky_failure fid fpull c name s r f now tick release recs pre t post ex :
  (records s !! name = Some r -> Failure r = Some f ->
   forall n, reconcileN c name n s = (tt, s))
  /\ (cfgAs (Config release) = releaseConfigModeStable ->
      specTags (Target release) = pre ++ t :: post ->
      recognizedTag t = true ->
      Forall (fun u => recognizedTag u = true -> tagName u <> tagName t) (pre ++ post) ->
      recs !! tagName t = Some ex ->
      let cleared := 12 * Hour <? tick (length pre) - At ex in
      let drift := negb (String.eqb (Location ex) (fpull (Target release) (tagName t)))
                   || negb (String.eqb (ID ex) (fid (Target release) (tagName t))) in
      (Sync fid fpull now tick release recs).1 !! tagName t
        = Some (if cleared then withAtFailure ex now None else ex)
      /\ (cleared || drift = true -> tagName t ∈ (Sync fid fpull now tick release recs).2)).
Proof.
  split.
  { intros Hr Hf n. apply (reconcileN_failed c name n s r f Hr Hf). }
  intros Hst Htags Ht Hother Hex. cbv zeta.
  apply List.Forall_app in Hother as [Hpre Hpost].
  rewrite (Sync_stable fid fpull now tick release recs Hst). cbv zeta.
  rewrite Htags, syncTags_app. cbn [fst snd].
  pose proof (syncTags_frame fid fpull now tick release 0 pre (recs, [], []) _ Hpre)
    as Hf1.
  destruct (syncTags fid fpull now tick release 0 pre (recs, [], []))
    as [[r1 f1] a1] eqn:E1.
  cbn in Hf1. rewrite Hex in Hf1. cbn [length syncTags]. rewrite Nat.add_0_l.
  rewrite (syncTag_existing fid fpull now _ release r1 f1 a1 t ex Ht Hf1).
  destruct (12 * Hour <? tick (length pre) - At ex) eqn:Hc.
  - pose proof (syncTags_frame fid fpull now tick release (S (length pre)) post
                  (<[tagName t := withAtFailure ex now None]> r1,
                   f1 ++ [tagName t], a1 ++ [tagName t]) _ Hpost) as Hf2.
    destruct (syncTags_added_mono fid fpull now tick release (S (length pre)) post
                (<[tagName t := withAtFailure ex now None]> r1,
                 f1 ++ [tagName t], a1 ++ [tagName t])) as [more Hm].
    destruct (syncTags _ _ _ _ _ _ _ _) as [[r2 f2] a2].
    cbn in Hf2, Hm |- *. rewrite lookup_insert_eq in Hf2. split.
    + apply map_lookup_filter_Some_2; [exact Hf2|]. right. apply foundNames_mid, Ht.
    + intros _. rewrite Hm. apply elem_of_app. left. apply elem_of_app. right.
      apply list_elem_of_singleton. reflexivity.
  - destruct (negb (String.eqb (Location ex) (fpull (Target release) (tagName t)))
              || negb (String.eqb (ID ex) (fid (Target release) (tagName t))));
      [set (a1' := a1 ++ [tagName t]) | set (a1' := a1)];
      pose proof (syncTags_frame fid fpull now tick release (S (length pre)) post
                    (r1, f1 ++ [tagName t], a1') _ Hpost) as Hf2;
      destruct (syncTags_added_mono fid fpull now tick release (S (length pre)) post
                  (r1, f1 ++ [tagName t], a1')) as [more Hm];
      destruct (syncTags fid fpull now tick release (S (length pre)) post
                  (r1, f1 ++ [tagName t], a1')) as [[r2 f2] a2];
      cbn in Hf2, Hm |- *; rewrite Hf1 in Hf2;
      (split; [apply map_lookup_filter_Some_2; [exact Hf2 | right; apply foundNames_mid, Ht]|]).
    + intros _. rewrite Hm. subst a1'. apply elem_of_app. left.
      apply elem_of_app. right. apply list_elem_of_singleton. reflexivity.
    + intros Hd. discriminate Hd.
Qed.

Lemma C3_witness :
  let r := sampleRecord sampleDigest (Some sampleFailure) in
  let t := acceptedTag sampleTag in
  let release := sampleStreamRelease [t] in
  let movedPull (_ : ImageStream) (_ : string) := "registry.example/moved@sha256:abcd" in
  let recs : gmap string AuditRecord := {[ sampleTag := r ]} in
  reconcileN (sampleController "" "" false) sampleTag 5 (sampleState r [])
    = (tt, sampleState r [])
  /\ (Sync sampleFindID movedPull (6 * Hour) (fun _ => 6 * Hour) release recs).1
       !! sampleTag = Some r
  /\ sampleTag ∈ (Sync sampleFindID movedPull (6 * Hour) (fun _ => 6 * Hour) release recs).2.
Proof.
  cbv zeta.
  destruct (C3_sticky_failure sampleFindID
              (fun _ _ => "registry.example/moved@sha256:abcd")
              (sampleController "" "" false) sampleTag
              (sampleState (sampleRecord sampleDigest (Some sampleFailure)) [])
              (sampleRecord sampleDigest (Some sampleFailure)) sampleFailure
              (6 * Hour) (fun _ => 6 * Hour)
              (sampleStreamRelease [acceptedTag sampleTag])
              {[ sampleTag := sampleRecord sampleDigest (Some sampleFailure) ]}
              [] (acceptedTag sampleTag) []
              (sampleRecord sampleDigest (Some sampleFailure))) as [H1 H2].
  split; [apply H1; reflexivity|].
  assert (Hst : cfgAs (Config (sampleStreamRelease [acceptedTag sampleTag]))
                = releaseConfigModeStable) by reflexivity.
  assert (Htags : specTags (Target (sampleStreamRelease [acceptedTag sampleTag]))
                  = [] ++ acceptedTag sampleTag :: []) by reflexivity.
  assert (Ht : recognizedTag (acceptedTag sampleTag) = true) by (vm_compute; reflexivity).
  assert (Hex : ({[ sampleTag := sampleRecord sampleDigest (Some sampleFailure) ]}
                 : gmap string AuditRecord) !! tagName (acceptedTag sampleTag)
                = Some (sampleRecord sampleDigest (Some sampleFailure)))
    by (vm_compute; reflexivity).
  destruct (H2 Hst Htags Ht (List.Forall_nil _) Hex) as [Hr Hq].
  split; [exact Hr | apply Hq; vm_compute; reflexivity].
Defined.

(** Claim C6, counterexample: records are keyed by tag name alone. A record
    for [sampleTag] owned by release 4.11.0-0.ci, failed and observed at
    time 0, is changed by [Sync] of release 4.10.0-0.ci in stable mode when
    that release also lists [sampleTag]: 13 hours later its failure is
    cleared and [At] refreshed, so a record of another release is not left
    unchanged. *)
Lemma C6_other_release_record_refreshed :
  let v := otherRecord 0 (Some sampleFailure) in
  let release := sampleStreamRelease [acceptedTag sampleTag] in
  let recs : gmap string AuditRecord := {[ sampleTag := v ]} in
  cfgAs (Config release) = releaseConfigModeStable
  /\ Release v <> cfgName (Config release)
  /\ (Sync sampleFindID sampleFindPull (13 * Hour) (fun _ => 13 * Hour) release recs).1
       !! sampleTag = Some (withAtFailure v (13 * Hour) None)
  /\ withAtFailure v (13 * Hour) None <> v.
Proof.
  cbv zeta. split; [reflexivity|]. split; [discriminate|].
  split; [vm_compute; reflexivity | discriminate].
Qed.

(** Claim C6, amended. For a [Sync] in stable mode and a record [v] tracked
    under tag name [k]: the record is deleted exactly when it is owned by
    the synced release and [k] is not the name of a recognized tag of this
    call; and a record of another release whose tag name is not among those
    names is left unchanged. *)
Theorem C6_gc_scope fid fpull now tick release recs k v :
  cfgAs (Config release) = releaseConfigModeStable ->
  recs !! k = Some v ->
  ((Sync fid fpull now tick release recs).1 !! k = None
   <-> Release v = cfgName (Config release)
       /\ k ∉ foundNames (specTags (Target release)))
  /\ (k ∉ foundNames (specTags (Target release)) ->
      Release v <> cfgName (Config release) ->
      (Sync fid fpull now tick release recs).1 !! k = Some v).
Proof.
  intros Hst Hk. rewrite (Sync_stable fid fpull now tick release recs Hst). cbv zeta.
  set (tags := specTags (Target release)).
  pose proof (syncTags_keeps fid fpull now tick release 0 tags (recs, [], []) k
                (mk_is_Some _ _ Hk)) as Hsome.
  assert (Hframe : k ∉ foundNames tags ->
                   (syncTags fid fpull now tick release 0 tags (recs, [], [])).1.1 !! k
                   = Some v).
  { intros Hn. rewrite (syncTags_frame _ _ _ _ _ _ _ _ _ (frame_of_not_found _ _ Hn)).
    exact Hk. }
  destruct (syncTags fid fpull now tick release 0 tags (recs, [], []))
    as [[r1 f1] a1]. cbn [fst snd] in Hsome, Hframe |- *.
  split; [split|].
  - intros Hnone. apply map_lookup_filter_None in Hnone as [Hn|Hn].
    { destruct Hsome as [x Hx]. congruence. }
    destruct (decide (k ∈ foundNames tags)) as [Hin|Hout].
    + exfalso. destruct Hsome as [x Hx]. apply (Hn x Hx). right. exact Hin.
    + split; [|exact Hout].
      destruct (decide (Release v = cfgName (Config release))) as [He|Hne];
        [exact He|].
      exfalso. apply (Hn v (Hframe Hout)). left. exact Hne.
  - intros [He Hout]. apply map_lookup_filter_None. right.
    intros x Hx. rewrite (Hframe Hout) in Hx. injection Hx as <-.
    intros [Hne|Hin]; contradiction.
  - intros Hout Hne. apply map_lookup_filter_Some_2; [exact (Hframe Hout)|].
    left. exact Hne.
Qed.

Lemma C6_witness :
  let v := otherRecord 0 (Some sampleFailure) in
  let release := sampleStreamRelease [acceptedTag "4.10.0-0.ci-2023-01-02-000000"] in
  let recs : gmap string AuditRecord := {[ sampleTag := v ]} in
  (Sync sampleFindID sampleFindPull (13 * Hour) (fun _ => 13 * Hour) release recs).1
    !! sampleTag = Some v.
Proof.
  cbv zeta.
  assert (Hst : cfgAs (Config (sampleStreamRelease
                  [acceptedTag "4.10.0-0.ci-2023-01-02-000000"]))
                = releaseConfigModeStable) by reflexivity.
  assert (Hk : ({[ sampleTag := otherRecord 0 (Some sampleFailure) ]}
                : gmap string AuditRecord) !! sampleTag
               = Some (otherRecord 0 (Some sampleFailure))) by (vm_compute; reflexivity).
  destruct (C6_gc_scope sampleFindID sampleFindPull (13 * Hour) (fun _ => 13 * Hour)
              _ _ sampleTag _ Hst Hk) as [_ H].
  apply H; [apply (bool_decide_unpack _); vm_compute; exact I | discriminate].
Defined.

(* ------------------------------------------------------------------ *)
(** ** Further properties of the code *)

Lemma SetFailure_run now key msg s :
  SetFailure now key msg s
  = match records s !! key with
    | None => (tt, s)
    | Some r => (tt, mkState (<[key := failedRecord r now msg]> (records s))
                       (signatures s) (jobs s) (trace s))
    end.
Proof.
  unfold SetFailure, mbind, M_bind, getState, setRecords, mret, M_ret. cbn.
  destruct (records s !! key); reflexivity.
Qed.

Lemma verifyLocal_effects c r s :
  let s' := snd (verifyLocal c r s) in
  RecOnce (Name r) (clock c) s s' /\ signatures s' = signatures s /\ jobs s' = jobs s
  /\ (fst (verifyLocal c r s) = Verified -> fst (runVerify c (Location r)) = true).
Proof.
  unfold verifyLocal, mbind, M_bind, emit, mret, M_ret. cbn.
  destruct (runVerify c (Location r)) as [[|] out]; cbn.
  - repeat split; [left; reflexivity].
  - rewrite SetFailure_run. cbn.
    destruct (records s !! Name r) eqn:E; cbn; (repeat split; [|discriminate]).
    + right. do 2 eexists. split; [exact E | reflexivity].
    + left. reflexivity.
Qed.

Lemma verifyClusterJob_effects c rn release r s :
  let s' := snd (verifyClusterJob c rn release r s) in
  let name := auditVerifyJobName (ID r) in
  RecOnce (Name r) (clock c) s s' /\ signatures s' = signatures s
  /\ (jobs s' = jobs s
      \/ (jobs s' = newAuditVerifyJob release r name :: jobs s
          /\ jobListErr c = false
          /\ (countUnfinished (auditJobs (jobs s)) <= 2)
          /\ findJob name (jobs s) = None))
  /\ (fst (verifyClusterJob c rn release r s) = Verified ->
      exists j, findJob name (jobs s) = Some j /\ jobIsComplete j = (true, true)).
Proof.
  cbv zeta.
  unfold verifyClusterJob, countAuditVerifyJobs, ensureAuditVerifyJob, ensureJob,
    AddAfter, addJob, emit, getState, mbind, M_bind, mret, M_ret. cbn -[jobIsComplete].
  destruct (jobListErr c) eqn:Hl; cbn -[jobIsComplete].
  { repeat split; [left; reflexivity | left; reflexivity | discriminate]. }
  destruct (2 <? countUnfinished _) eqn:Hc; cbn -[jobIsComplete].
  { repeat split; [left; reflexivity | left; reflexivity | discriminate]. }
  unfold findJob, auditJobs.
  destruct (find _ (jobs s)) as [j|] eqn:Hf; cbn -[jobIsComplete].
  - destruct (jobIsComplete j) as [[|] [|]] eqn:Hj; cbn -[jobIsComplete];
      try (repeat split; [left; reflexivity | left; reflexivity | discriminate]).
    + repeat split; [left; reflexivity | left; reflexivity |]. intros _. eauto.
    + rewrite SetFailure_run. cbn.
      destruct (records s !! Name r) eqn:E; cbn -[jobIsComplete];
        (repeat split; [| left; reflexivity | discriminate]);
        [right; do 2 eexists; split; [exact E | reflexivity] | left; reflexivity].
  - destruct (jobCreateErr c); cbn.
    + repeat split; [left; reflexivity | left; reflexivity | discriminate].
    + repeat split; [left; reflexivity | | discriminate].
      right. repeat split. apply Z.ltb_ge in Hc. lia.
Qed.

(** Closes [Forall] goals over the events of a run. *)
Ltac forall_ev :=
  repeat (apply List.Forall_nil || apply List.Forall_cons);
  try (intros ?d ?l ?H; first [discriminate H | injection H as -> ->; split; reflexivity]).

Lemma signAndStore_effects c r s :
  let s' := snd (signAndStore c r s) in
  records s' = records s /\ jobs s' = jobs s
  /\ (signatures s' = signatures s \/ signatures s' = ID r :: signatures s)
  /\ Rtrace (fun e => forall d l, e = ESign d l -> d = ID r /\ l = Location r) s s'.
Proof.
  cbv zeta.
  unfold signAndStore, PutSignature, storeSignature, mbind, M_bind, emit, mret, M_ret.
  destruct (signer c) as [sign|]; cbn.
  2: { repeat split; [left; reflexivity | reflexivity]. }
  destruct (sign (ID r) (Location r)) as [sig|e]; cbn;
    [destruct (putSignatureErr c (ID r)); cbn|];
    repeat split; try (left; reflexivity); try (right; reflexivity);
    (eexists; split; [rewrite <- ?app_assoc; reflexivity | forall_ev]).
Qed.

Lemma Rtrace_mono (P Q : Event -> Prop) s s' :
  (forall e, P e -> Q e) -> Rtrace P s s' -> Rtrace Q s s'.
Proof.
  intros H [suf [E F]]. exists suf. split; [exact E|]. eapply List.Forall_impl; eauto.
Qed.

Lemma syncAuditTag_nodigest_run c name s r :
  records s !! name = Some r -> Failure r = None -> String.length (ID r) = 0%nat ->
  syncAuditTag c name s
  = (None, snd (SetFailure (clock c) (Name r)
                  ("Release " ++ Name r ++ " has no digest and cannot be verified")%string s)).
Proof.
  intros Hr Hf Hid. unfold syncAuditTag, Get, mbind, M_bind. cbn. rewrite Hr, Hf, Hid.
  cbn. destruct (SetFailure _ _ _ s). reflexivity.
Qed.

Lemma RecOnce_refl key now s : RecOnce key now s s.
Proof. left. reflexivity. Qed.

Lemma syncAuditTag_effects c name s r :
  records s !! name = Some r ->
  let s' := snd (syncAuditTag c name s) in
  RecOnce (Name r) (clock c) s s'
  /\ (signatures s' = signatures s \/ signatures s' = ID r :: signatures s)
  /\ (jobs s' = jobs s \/ createdFor c s r (jobs s'))
  /\ Rtrace (signsAfter (verifiedFor c s r) r) s s'.
Proof.
  intros Hr. cbv zeta.
  destruct (Failure r) as [f|] eqn:Hf.
  { rewrite (syncAuditTag_failed c name s r f Hr Hf). cbn.
    refine (conj _ (conj _ (conj _ _))); [left; reflexivity | left; reflexivity | left; reflexivity | reflexivity]. }
  destruct (decide (String.length (ID r) = 0%nat)) as [Hid|Hid].
  { rewrite (syncAuditTag_nodigest_run c name s r Hr Hf Hid), SetFailure_run. cbn.
    destruct (records s !! Name r) eqn:E; cbn;
      (refine (conj _ (conj _ (conj _ _))); [| left; reflexivity | left; reflexivity |
        exists []; split; [cbn; rewrite app_nil_r; reflexivity | constructor]]);
      [right; do 2 eexists; split; [exact E | reflexivity] | left; reflexivity]. }
  destruct (loadReleaseForSync c (ImageStreamNamespace r) (ImageStreamName r))
    as [rel err] eqn:Hl.
  destruct (load_cases rel err) as [[release [-> ->]]|Hn].
  2: { rewrite (syncAuditTag_notloaded c name s r rel err Hr Hf Hid Hl Hn). cbn.
       refine (conj _ (conj _ (conj _ _))); [left; reflexivity | left; reflexivity | left; reflexivity |].
       eexists; split; [reflexivity | forall_ev]. }
  rewrite (syncAuditTag_loaded c name s r release Hr Hf Hid Hl).
  destruct (existsb (String.eqb (ID r)) (signatures s)) eqn:Hs.
  { rewrite auditLoadedRelease_signed by exact Hs. cbn.
    refine (conj _ (conj _ (conj _ _))); [left; reflexivity | left; reflexivity | left; reflexivity |].
    eexists; split; [rewrite <- app_assoc; reflexivity | forall_ev]. }
  rewrite auditLoadedRelease_unsigned by exact Hs. cbv zeta. cbn [records signatures jobs trace].
  set (s2 := {| records := records s; signatures := signatures s; jobs := jobs s;
                trace := (trace s ++ [ELoadRelease (ImageStreamNamespace r)
                                        (ImageStreamName r)]) ++ [EHasSignature (ID r)] |}).
  assert (T2 : Rtrace (signsAfter (verifiedFor c s r) r) s s2).
  { eexists; split; [cbn; rewrite <- app_assoc; reflexivity | forall_ev]. }
  destruct (String.length (auditCLIImage c release) =? 0)%nat eqn:Himg.
  { cbn. refine (conj _ (conj _ (conj _ _))); [left; reflexivity | left; reflexivity | left; reflexivity |].
    exact T2. }
  rewrite bind_run.
  destruct (String.eqb (auditCLIImage c release) "local") eqn:Hloc.
  - pose proof (verifyLocal_effects c r s2) as [R3 [S3 [J3 V3]]].
    assert (T3 : Rtrace (signsAfter (verifiedFor c s r) r) s2 (snd (verifyLocal c r s2))).
    { apply verifyLocal_stable. intros d l H; discriminate. }
    destruct (fst (verifyLocal c r s2)) eqn:Ev.
    + specialize (V3 eq_refl). cbv beta iota.
      pose proof (signAndStore_effects c r (snd (verifyLocal c r s2))) as [R4 [J4 [S4 T4]]].
      cbv zeta in R4, J4, S4, T4.
      refine (conj _ (conj _ (conj _ _))).
      * unfold RecOnce in *. rewrite R4. exact R3.
      * rewrite S3 in S4. exact S4.
      * left. rewrite J4, J3. reflexivity.
      * etransitivity; [exact T2|]. etransitivity; [exact T3|].
        eapply Rtrace_mono; [|exact T4]. intros e He d l Hdl.
        destruct (He d l Hdl) as [Hd Hl']. refine (conj Hd (conj Hl' (conj Hf (conj Hs _)))).
        exists release. split; [exact Hl|]. left.
        split; [apply String.eqb_eq; exact Hloc | exact V3].
    + cbn. refine (conj _ (conj _ (conj _ _))); [exact R3 | left; exact S3 | left; exact J3 |].
      etransitivity; [exact T2 | exact T3].
  - pose proof (verifyClusterJob_effects c name release r s2) as [R3 [S3 [J3 V3]]].
    assert (T3 : Rtrace (signsAfter (verifiedFor c s r) r) s2
                   (snd (verifyClusterJob c name release r s2))).
    { apply verifyClusterJob_stable; try (intros d l H; discriminate);
        intros n d l H; discriminate. }
    destruct (fst (verifyClusterJob c name release r s2)) eqn:Ev.
    + specialize (V3 eq_refl). cbv beta iota.
      pose proof (signAndStore_effects c r (snd (verifyClusterJob c name release r s2)))
        as [R4 [J4 [S4 T4]]].
      cbv zeta in R4, J4, S4, T4.
      refine (conj _ (conj _ (conj _ _))).
      * unfold RecOnce in *. rewrite R4. exact R3.
      * rewrite S3 in S4. exact S4.
      * rewrite J4. destruct J3 as [J3|[J3 [_ [_ Hnone]]]]; [left; exact J3|].
        exfalso. destruct V3 as [j [Hj _]]. congruence.
      * etransitivity; [exact T2|]. etransitivity; [exact T3|].
        eapply Rtrace_mono; [|exact T4]. intros e He d l Hdl.
        destruct (He d l Hdl) as [Hd Hl']. refine (conj Hd (conj Hl' (conj Hf (conj Hs _)))).
        exists release. split; [exact Hl|]. right.
        split; [intros E; rewrite E in Hloc; discriminate|].
        split; [intros E; rewrite E in Himg; discriminate|]. exact V3.
    + cbn. refine (conj _ (conj _ (conj _ _))); [exact R3 | left; exact S3 | |].
      * destruct J3 as [J3|[J3 [Hle [Hc Hnone]]]]; [left; exact J3|].
        right. exists release. repeat split; try assumption.
        intros E; rewrite E in Hloc; discriminate.
      * etransitivity; [exact T2 | exact T3].
Qed.

Lemma syncAuditTag_untracked c name s :
  records s !! name = None -> syncAuditTag c name s = (None, s).
Proof. intros Hr. unfold syncAuditTag, Get, mbind, M_bind. cbn. rewrite Hr. reflexivity. Qed.

Lemma newAuditVerifyJob_counted release r name js :
  countUnfinished (auditJobs (newAuditVerifyJob release r name :: js))
  = 1 + countUnfinished (auditJobs js).
Proof.
  unfold countUnfinished, auditJobs. rewrite filter_cons_True by reflexivity.
  rewrite filter_cons_True by reflexivity. cbn [Datatypes.length]. lia.
Qed.

Lemma cutColon_app alg rest :
  colonFree alg = true -> cutColon (alg ++ String ":"%char rest) = Some (alg, rest).
Proof.
  induction alg as [|ch alg IH]; cbn [colonFree]; [reflexivity|].
  intros H. apply andb_true_iff in H as [H1 H2]. apply negb_true_iff in H1.
  change (String ch alg ++ String ":" rest)%string with (String ch (alg ++ String ":" rest)).
  cbn [cutColon]. rewrite H1, IH by exact H2. reflexivity.
Qed.

Lemma auditVerifyJobName_digest_eq alg hex :
  colonFree alg = true -> colonFree hex = true ->
  auditVerifyJobName (alg ++ String ":"%char hex) = ("verify-" ++ substring 0 56 hex)%string.
Proof.
  intros Ha Hh. unfold auditVerifyJobName, SplitN2Colon. rewrite cutColon_app by exact Ha.
  rewrite replaceColonDash_id.
  2: { cbn. exact Hh. }
  replace (String.length ("verify-" ++ hex)) with (7 + String.length hex)%nat
    by reflexivity.
  destruct (63 <? 7 + String.length hex)%nat eqn:E.
  - reflexivity.
  - apply Nat.ltb_ge in E. rewrite substring_all by lia. reflexivity.
Qed.

(** X14: for a digest [alg:hex] with colon-free parts, the verify job is named [verify-] followed by the first 56 characters of [hex]. *)
Theorem auditVerifyJobName_of_digest alg hex :
  colonFree alg = true -> colonFree hex = true ->
  auditVerifyJobName (alg ++ String ":"%char hex) = ("verify-" ++ substring 0 56 hex)%string.
Proof. exact (auditVerifyJobName_digest_eq alg hex). Qed.

Lemma auditVerifyJobName_of_digest_witness :
  (colonFree "sha256" = true /\ colonFree "abcd" = true)
  /\ auditVerifyJobName ("sha256" ++ String ":"%char "abcd")
     = ("verify-" ++ substring 0 56 "abcd")%string.
Proof.
  assert (H1 : colonFree "sha256" = true) by reflexivity.
  assert (H2 : colonFree "abcd" = true) by reflexivity.
  split; [exact (conj H1 H2) | exact (auditVerifyJobName_of_digest _ _ H1 H2)].
Defined.

(** X15: two digests with colon-free parts get the same verify job name exactly when their hex parts agree on the first 56 characters, whatever their algorithms. *)
Theorem auditVerifyJobName_collision alg1 hex1 alg2 hex2 :
  colonFree alg1 = true -> colonFree hex1 = true ->
  colonFree alg2 = true -> colonFree hex2 = true ->
  auditVerifyJobName (alg1 ++ String ":"%char hex1)
    = auditVerifyJobName (alg2 ++ String ":"%char hex2)
  <-> substring 0 56 hex1 = substring 0 56 hex2.
Proof.
  intros Ha1 Hh1 Ha2 Hh2.
  rewrite !auditVerifyJobName_digest_eq by assumption.
  split; [intros H; injection H as H; exact H | intros ->; reflexivity].
Qed.

Lemma auditVerifyJobName_collision_witness :
  (colonFree "sha256" = true /\ colonFree "abcd" = true
   /\ colonFree "sha512" = true /\ colonFree "abcd" = true)
  /\ (auditVerifyJobName ("sha256" ++ String ":"%char "abcd")
      = auditVerifyJobName ("sha512" ++ String ":"%char "abcd")
      <-> substring 0 56 "abcd" = substring 0 56 "abcd").
Proof.
  assert (H1 : colonFree "sha256" = true) by reflexivity.
  assert (H2 : colonFree "abcd" = true) by reflexivity.
  assert (H3 : colonFree "sha512" = true) by reflexivity.
  split; [exact (conj H1 (conj H2 (conj H3 H2))) |
          exact (auditVerifyJobName_collision _ _ _ _ H1 H2 H3 H2)].
Defined.

Lemma firstTerminated_spec onlySuccess l :
  match firstTerminated onlySuccess l with
  | (m, code, true) => exists st t, In st l /\ eligible onlySuccess st t
                                    /\ m = TMessage t /\ code = ExitCode t
  | (m, code, false) => m = ""%string /\ code = 0
                        /\ forall st t, In st l -> ~ eligible onlySuccess st t
  end.
Proof.
  induction l as [|st l IH]; cbn.
  - repeat split. intros st t [].
  - destruct (Terminated st) as [t|] eqn:Ht.
    + destruct (onlySuccess && negb (ExitCode t =? 0)) eqn:Hs.
      * destruct (firstTerminated onlySuccess l) as [[m code] [|]].
        -- destruct IH as [st' [t' [Hin [He [Hm Hc]]]]]. exists st', t'. auto.
        -- destruct IH as [Hm [Hc Hn]]. repeat split; auto.
           intros st' t' [<-|Hin] [He Hx]; [|exact (Hn st' t' Hin (conj He Hx))].
           rewrite Ht in He. injection He as <-.
           apply andb_true_iff in Hs as [-> Hs]. apply negb_true_iff, Z.eqb_neq in Hs.
           exact (Hs (Hx eq_refl)).
      * exists st, t. split; [left; reflexivity|]. split; [|auto].
        split; [exact Ht|]. intros ->. cbn in Hs.
        apply negb_false_iff, Z.eqb_eq in Hs. exact Hs.
    + destruct (firstTerminated onlySuccess l) as [[m code] [|]].
      * destruct IH as [st' [t' [Hin [He [Hm Hc]]]]]. exists st', t'. auto.
      * destruct IH as [Hm [Hc Hn]]. repeat split; auto.
        intros st' t' [<-|Hin] [He Hx]; [congruence|exact (Hn st' t' Hin (conj He Hx))].
Qed.

(** X1: for any [sort.Slice] that permutes its input, [ensureJobTerminationMessageRetrieved] reports a message exactly when the job has active pods, the pod lookup succeeds and some listed container has terminated (with exit code 0 when [onlySuccess]); the message and exit code then come from such a container, and otherwise the result is [("", 0, false)]. *)
Theorem ensureJobTerminationMessageRetrieved_result findJobContainerStatus sortSlice job podFieldSelector
    containerName onlySuccess :
  (forall less l, Permutation (sortSlice less l) l) ->
  let res := ensureJobTerminationMessageRetrieved findJobContainerStatus sortSlice job
               podFieldSelector containerName onlySuccess in
  (res.2 = true
   <-> jobActive job <> 0
       /\ exists statuses,
            findJobContainerStatus job podFieldSelector containerName = Some statuses
            /\ exists st t, In st statuses /\ eligible onlySuccess st t)
  /\ (res.2 = true ->
      exists statuses st t,
        findJobContainerStatus job podFieldSelector containerName = Some statuses
        /\ In st statuses /\ eligible onlySuccess st t
        /\ res.1 = (TMessage t, ExitCode t))
  /\ (res.2 = false -> res.1 = (""%string, 0)).
Proof.
  intros Hperm. cbv zeta. unfold ensureJobTerminationMessageRetrieved.
  destruct (jobActive job =? 0) eqn:Ha.
  { apply Z.eqb_eq in Ha. cbn. split; [split; [discriminate | intros [H _]; contradiction]|].
    split; [discriminate | reflexivity]. }
  apply Z.eqb_neq in Ha.
  destruct (findJobContainerStatus job podFieldSelector containerName) as [statuses|] eqn:Hf.
  2: { cbn. split; [split; [discriminate | intros [_ [st [H _]]]; discriminate]|].
       split; [discriminate | reflexivity]. }
  pose proof (firstTerminated_spec onlySuccess (sortSlice statusLess statuses)) as Hs.
  pose proof (Hperm statusLess statuses) as P.
  destruct (firstTerminated onlySuccess (sortSlice statusLess statuses))
    as [[m code] [|]]; cbn.
  - destruct Hs as [st [t [Hin [He [-> ->]]]]].
    apply (Permutation_in _ P) in Hin.
    split; [split; [intros _; split; [exact Ha|]; exists statuses; split; [reflexivity|]; eauto | auto]|].
    split; [intros _; exists statuses, st, t; auto | discriminate].
  - destruct Hs as [-> [-> Hn]].
    split; [split; [discriminate|] | split; [discriminate | reflexivity]].
    intros [_ [sts [Heq [st [t [Hin He]]]]]]. injection Heq as <-.
    apply (Permutation_in _ (Permutation_sym P)) in Hin. destruct (Hn st t Hin He).
Qed.

Lemma ensureJobTerminationMessageRetrieved_result_witness :
  (forall less l, Permutation (alreadySorted less l) l)
  /\ let res := ensureJobTerminationMessageRetrieved sampleFindStatus alreadySorted
                  (unfinishedAuditJob "verify-abcd") "" "verify" true in
     (res.2 = true
      <-> jobActive (unfinishedAuditJob "verify-abcd") <> 0
          /\ exists statuses,
               sampleFindStatus (unfinishedAuditJob "verify-abcd") "" "verify" = Some statuses
               /\ exists st t, In st statuses /\ eligible true st t)
     /\ (res.2 = true ->
         exists statuses st t,
           sampleFindStatus (unfinishedAuditJob "verify-abcd") "" "verify" = Some statuses
           /\ In st statuses /\ eligible true st t
           /\ res.1 = (TMessage t, ExitCode t))
     /\ (res.2 = false -> res.1 = (EmptyString, 0)).
Proof.
  split; [intros; reflexivity|].
  apply ensureJobTerminationMessageRetrieved_result. intros; reflexivity.
Defined.

Lemma syncTag_new fid fpull now clk release recs found added t :
  recognizedTag t = true -> recs !! tagName t = None ->
  syncTag fid fpull now clk release (recs, found, added) t
  = (<[tagName t := newAuditRecord fid fpull now release (tagName t)]> recs,
     found ++ [tagName t], added ++ [tagName t]).
Proof. intros Hr Hn. unfold syncTag. rewrite Hr, Hn. reflexivity. Qed.

(** X2: in stable mode, a recognized tag of the target stream that is not yet tracked (and that no other recognized tag shares its name with) gets a fresh record, stamped [now], with the tag's image ID and pull spec, the release's name and source stream and no failure, and its name is queued. *)
Theorem Sync_records_new_tag fid fpull now tick release recs pre t post :
  cfgAs (Config release) = releaseConfigModeStable ->
  specTags (Target release) = pre ++ t :: post ->
  recognizedTag t = true ->
  Forall (fun u => recognizedTag u = true -> tagName u <> tagName t) (pre ++ post) ->
  recs !! tagName t = None ->
  (Sync fid fpull now tick release recs).1 !! tagName t
    = Some (newAuditRecord fid fpull now release (tagName t))
  /\ tagName t ∈ (Sync fid fpull now tick release recs).2.
Proof.
  intros Hst Htags Ht Hother Hn.
  apply List.Forall_app in Hother as [Hpre Hpost].
  rewrite (Sync_stable fid fpull now tick release recs Hst). cbv zeta.
  rewrite Htags, syncTags_app. cbn [fst snd].
  pose proof (syncTags_frame fid fpull now tick release 0 pre (recs, [], []) _ Hpre)
    as Hf1.
  destruct (syncTags fid fpull now tick release 0 pre (recs, [], []))
    as [[r1 f1] a1] eqn:E1.
  cbn in Hf1. rewrite Hn in Hf1. cbn [Datatypes.length syncTags]. rewrite Nat.add_0_l.
  rewrite (syncTag_new fid fpull now _ release r1 f1 a1 t Ht Hf1).
  set (acc := (<[tagName t := newAuditRecord fid fpull now release (tagName t)]> r1,
               f1 ++ [tagName t], a1 ++ [tagName t])).
  pose proof (syncTags_frame fid fpull now tick release (S (length pre)) post acc _ Hpost)
    as Hf2.
  destruct (syncTags_added_mono fid fpull now tick release (S (length pre)) post acc)
    as [more Hm].
  destruct (syncTags fid fpull now tick release (S (length pre)) post acc) as [[r2 f2] a2].
  subst acc. cbn in Hf2, Hm |- *. rewrite lookup_insert_eq in Hf2. split.
  - apply map_lookup_filter_Some_2; [exact Hf2|]. right. apply foundNames_mid, Ht.
  - rewrite Hm. apply elem_of_app. left. apply elem_of_app. right.
    apply list_elem_of_singleton. reflexivity.
Qed.

Lemma Sync_records_new_tag_witness :
  (cfgAs (Config (sampleStreamRelease [acceptedTag sampleTag])) = releaseConfigModeStable
   /\ specTags (Target (sampleStreamRelease [acceptedTag sampleTag]))
      = [] ++ acceptedTag sampleTag :: []
   /\ recognizedTag (acceptedTag sampleTag) = true
   /\ Forall (fun u => recognizedTag u = true -> tagName u <> tagName (acceptedTag sampleTag))
        ([] ++ [])
   /\ (∅ : gmap string AuditRecord) !! tagName (acceptedTag sampleTag) = None)
  /\ (Sync sampleFindID sampleFindPull 0 (fun _ => 0)
        (sampleStreamRelease [acceptedTag sampleTag]) ∅).1 !! tagName (acceptedTag sampleTag)
     = Some (newAuditRecord sampleFindID sampleFindPull 0
               (sampleStreamRelease [acceptedTag sampleTag]) (tagName (acceptedTag sampleTag)))
  /\ tagName (acceptedTag sampleTag)
       ∈ (Sync sampleFindID sampleFindPull 0 (fun _ => 0)
            (sampleStreamRelease [acceptedTag sampleTag]) ∅).2.
Proof.
  assert (H1 : cfgAs (Config (sampleStreamRelease [acceptedTag sampleTag]))
               = releaseConfigModeStable) by reflexivity.
  assert (H2 : specTags (Target (sampleStreamRelease [acceptedTag sampleTag]))
               = [] ++ acceptedTag sampleTag :: []) by reflexivity.
  assert (H3 : recognizedTag (acceptedTag sampleTag) = true) by (vm_compute; reflexivity).
  assert (H4 : Forall (fun u => recognizedTag u = true
                               -> tagName u <> tagName (acceptedTag sampleTag)) ([] ++ []))
    by (simpl; apply List.Forall_nil).
  assert (H5 : (∅ : gmap string AuditRecord) !! tagName (acceptedTag sampleTag) = None)
    by reflexivity.
  split; [exact (conj H1 (conj H2 (conj H3 (conj H4 H5))))|].
  exact (Sync_records_new_tag sampleFindID sampleFindPull 0 (fun _ => 0)
           (sampleStreamRelease [acceptedTag sampleTag]) ∅ [] (acceptedTag sampleTag) []
           H1 H2 H3 H4 H5).
Defined.

Lemma syncTag_identity fid fpull now clk release acc u k v v0 :
  acc.1.1 !! k = Some v0 -> refreshedOrSame now v v0 ->
  exists v1, (syncTag fid fpull now clk release acc u).1.1 !! k = Some v1
             /\ refreshedOrSame now v v1.
Proof.
  intros H0 R0. destruct acc as [[recs found] added]. cbn in H0. unfold syncTag.
  destruct (recognizedTag u); cbn; [|eauto].
  destruct (decide (tagName u = k)) as [<-|Hne].
  - rewrite H0. destruct (12 * Hour <? clk - At v0); cbn.
    + rewrite lookup_insert_eq. eexists; split; [reflexivity|].
      right. destruct R0 as [->| ->]; reflexivity.
    + rewrite H0. eauto.
  - destruct (recs !! tagName u); [destruct (12 * Hour <? clk - At a)|]; cbn;
      rewrite ?lookup_insert_ne by exact Hne; eauto.
Qed.

Lemma syncTags_identity fid fpull now tick release i l acc k v :
  acc.1.1 !! k = Some v ->
  exists v1, (syncTags fid fpull now tick release i l acc).1.1 !! k = Some v1
             /\ refreshedOrSame now v v1.
Proof.
  intros H. assert (R : refreshedOrSame now v v) by (left; reflexivity).
  revert H R. generalize v at 1 3 as v0. intros v0 H R.
  revert i acc v0 H R. induction l as [|u l IH]; intros i acc v0 H R; cbn; [eauto|].
  destruct (syncTag_identity fid fpull now (tick i) release acc u k v v0 H R)
    as [v1 [H1 R1]].
  exact (IH (S i) _ v1 H1 R1).
Qed.

(** X3: [Sync] never rewrites the identity of a record it keeps: a record present before and after is either unchanged or has only its time set to [now] and its failure cleared; a changed ID or location is not written back. *)
Theorem Sync_keeps_record_identity fid fpull now tick release recs k v v' :
  recs !! k = Some v ->
  (Sync fid fpull now tick release recs).1 !! k = Some v' ->
  v' = v \/ v' = withAtFailure v now None.
Proof.
  intros Hv Hv'. unfold Sync in Hv'.
  destruct (negb _); [cbn in Hv'; left; congruence|].
  destruct (syncTags_identity fid fpull now tick release 0 (specTags (Target release))
              (recs, [], []) k v Hv) as [v1 [H1 R1]].
  destruct (syncTags _ _ _ _ _ _ _ _) as [[r1 f1] a1]. cbn in H1, Hv' |- *.
  apply map_lookup_filter_Some in Hv' as [Hv' _]. rewrite H1 in Hv'.
  injection Hv' as <-. exact R1.
Qed.

Lemma Sync_keeps_record_identity_witness :
  let recs := {[sampleTag := otherRecord 0 (Some sampleFailure)]} in
  let v' := withAtFailure (otherRecord 0 (Some sampleFailure)) (13 * Hour) None in
  (recs !! sampleTag = Some (otherRecord 0 (Some sampleFailure))
   /\ (Sync sampleFindID sampleFindPull (13 * Hour) (fun _ => 13 * Hour)
         (sampleStreamRelease [acceptedTag sampleTag]) recs).1 !! sampleTag = Some v')
  /\ (v' = otherRecord 0 (Some sampleFailure)
      \/ v' = withAtFailure (otherRecord 0 (Some sampleFailure)) (13 * Hour) None).
Proof.
  cbv zeta.
  assert (H1 : ({[sampleTag := otherRecord 0 (Some sampleFailure)]} : gmap string AuditRecord)
                 !! sampleTag = Some (otherRecord 0 (Some sampleFailure))) by reflexivity.
  assert (H2 : (Sync sampleFindID sampleFindPull (13 * Hour) (fun _ => 13 * Hour)
                  (sampleStreamRelease [acceptedTag sampleTag])
                  {[sampleTag := otherRecord 0 (Some sampleFailure)]}).1 !! sampleTag
               = Some (withAtFailure (otherRecord 0 (Some sampleFailure)) (13 * Hour) None))
    by (vm_compute; reflexivity).
  split; [exact (conj H1 H2)|].
  exact (Sync_keeps_record_identity _ _ _ _ _ _ _ _ _ H1 H2).
Defined.

Lemma syncTag_queue fid fpull now clk release acc u x :
  x ∈ (syncTag fid fpull now clk release acc u).2 ->
  x ∈ acc.2 \/ (recognizedTag u = true /\ x = tagName u).
Proof.
  destruct acc as [[recs found] added]. unfold syncTag. cbn.
  destruct (recognizedTag u) eqn:Hu; cbn; [|auto].
  assert (Happ : x ∈ added ++ [tagName u] -> x ∈ added \/ (true = true /\ x = tagName u)).
  { intros H. apply elem_of_app in H as [H|H]; [auto|].
    apply list_elem_of_singleton in H. auto. }
  destruct (recs !! tagName u); [destruct (12 * Hour <? clk - At a)|]; cbn;
    [exact Happ | destruct (_ || _); [exact Happ | auto] | exact Happ].
Qed.

Lemma syncTags_queue fid fpull now tick release i l acc x :
  x ∈ (syncTags fid fpull now tick release i l acc).2 -> x ∈ acc.2 \/ x ∈ foundNames l.
Proof.
  revert i acc. induction l as [|u l IH]; intros i acc H; cbn in H; [auto|].
  destruct (IH _ _ H) as [H1|H1].
  - destruct (syncTag_queue fid fpull now (tick i) release acc u x H1) as [H2|[Hu ->]];
      [auto|]. right. unfold foundNames. rewrite filter_cons_True by exact Hu.
    apply elem_of_cons. left. reflexivity.
  - right. unfold foundNames in *. rewrite filter_cons.
    destruct (decide (recognizedTag u = true)); [apply elem_of_cons; right|]; exact H1.
Qed.

(** X4: in stable mode, after [Sync] every recognized tag of the target stream is tracked, every tracked name was tracked before or is such a tag, and only such tags are queued. *)
Theorem Sync_coverage fid fpull now tick release recs :
  cfgAs (Config release) = releaseConfigModeStable ->
  let res := Sync fid fpull now tick release recs in
  let found := foundNames (specTags (Target release)) in
  (forall k, k ∈ found -> is_Some (res.1 !! k))
  /\ (forall k, is_Some (res.1 !! k) -> is_Some (recs !! k) \/ k ∈ found)
  /\ (forall k, k ∈ res.2 -> k ∈ found).
Proof.
  intros Hst. cbv zeta. rewrite (Sync_stable fid fpull now tick release recs Hst). cbv zeta.
  set (tags := specTags (Target release)).
  pose proof (syncTags_found_present fid fpull now tick release 0 tags (recs, [], []))
    as Hpres.
  pose proof (fun k Hn => syncTags_frame fid fpull now tick release 0 tags (recs, [], []) k
                (frame_of_not_found tags k Hn)) as Hframe.
  pose proof (syncTags_queue fid fpull now tick release 0 tags (recs, [], [])) as Hq.
  destruct (syncTags fid fpull now tick release 0 tags (recs, [], [])) as [[r1 f1] a1].
  cbn in Hpres, Hframe, Hq |- *.
  split; [|split].
  - intros k Hk. destruct (Hpres k Hk) as [x Hx]. exists x.
    apply map_lookup_filter_Some_2; [exact Hx | right; exact Hk].
  - intros k [x Hx]. apply map_lookup_filter_Some in Hx as [Hx _].
    destruct (decide (k ∈ foundNames tags)) as [Hin|Hout]; [right; exact Hin|].
    left. rewrite <- (Hframe k Hout). exists x. exact Hx.
  - intros k Hk. destruct (Hq k Hk) as [H|H]; [apply elem_of_nil in H; contradiction | exact H].
Qed.

Lemma Sync_coverage_witness :
  cfgAs (Config (sampleStreamRelease [acceptedTag sampleTag])) = releaseConfigModeStable
  /\ let res := Sync sampleFindID sampleFindPull 0 (fun _ => 0)
                  (sampleStreamRelease [acceptedTag sampleTag])
                  {[sampleTag := otherRecord 0 None]} in
     let found := foundNames (specTags (Target (sampleStreamRelease [acceptedTag sampleTag]))) in
     (forall k, k ∈ found -> is_Some (res.1 !! k))
     /\ (forall k, is_Some (res.1 !! k) -> is_Some (({[sampleTag := otherRecord 0 None]} : gmap string AuditRecord) !! k)
                                          \/ k ∈ found)
     /\ (forall k, k ∈ res.2 -> k ∈ found).
Proof.
  assert (H : cfgAs (Config (sampleStreamRelease [acceptedTag sampleTag]))
              = releaseConfigModeStable) by reflexivity.
  split; [exact H|]. exact (Sync_coverage _ _ _ _ _ _ H).
Defined.

Lemma syncTag_keyed fid fpull now clk release acc u :
  keyedByName acc.1.1 -> keyedByName (syncTag fid fpull now clk release acc u).1.1.
Proof.
  destruct acc as [[recs found] added]. cbn. intros Hk. unfold syncTag.
  destruct (recognizedTag u); cbn; [|exact Hk].
  destruct (recs !! tagName u) eqn:E; [destruct (12 * Hour <? clk - At a)|]; cbn;
    try exact Hk; apply map_Forall_insert_2; try exact Hk; cbn; [|reflexivity].
  exact (Hk _ _ E).
Qed.

Lemma syncTags_keyed fid fpull now tick release i l acc :
  keyedByName acc.1.1 -> keyedByName (syncTags fid fpull now tick release i l acc).1.1.
Proof.
  revert i acc. induction l as [|u l IH]; intros i acc H; cbn; [exact H|].
  apply IH, syncTag_keyed, H.
Qed.

(** X5: if every record is stored under its own name, this still holds after [Sync]. *)
Theorem Sync_keeps_keyedByName fid fpull now tick release recs :
  keyedByName recs -> keyedByName (Sync fid fpull now tick release recs).1.
Proof.
  intros H. unfold Sync. destruct (negb _); [exact H|].
  pose proof (syncTags_keyed fid fpull now tick release 0 (specTags (Target release))
                (recs, [], []) H) as H1.
  destruct (syncTags _ _ _ _ _ _ _ _) as [[r1 f1] a1]. cbn in H1 |- *.
  intros k v Hv. apply map_lookup_filter_Some in Hv as [Hv _]. exact (H1 k v Hv).
Qed.

Lemma Sync_keeps_keyedByName_witness :
  keyedByName {[sampleTag := otherRecord 0 None]}
  /\ keyedByName (Sync sampleFindID sampleFindPull 0 (fun _ => 0)
                    (sampleStreamRelease [acceptedTag sampleTag])
                    {[sampleTag := otherRecord 0 None]}).1.
Proof.
  assert (H : keyedByName {[sampleTag := otherRecord 0 None]})
    by (unfold keyedByName; apply map_Forall_singleton; reflexivity).
  split; [exact H | exact (Sync_keeps_keyedByName _ _ _ _ _ _ H)].
Defined.

(** X7: when records are stored under their names, one step of [syncAuditTag] keeps that so, and either leaves the records unchanged or replaces the reconciled record by itself marked failed at the controller's clock; no record is added, removed or cleared. *)
Theorem syncAuditTag_records_frame c name s :
  keyedByName (records s) ->
  let s' := snd (syncAuditTag c name s) in
  keyedByName (records s')
  /\ (records s' = records s
      \/ exists r msg, records s !! name = Some r
                       /\ records s' = <[name := failedRecord r (clock c) msg]> (records s)).
Proof.
  intros Hk. cbv zeta.
  destruct (records s !! name) as [r|] eqn:Hr.
  2: { rewrite (syncAuditTag_untracked c name s Hr). cbn. split; [exact Hk | left; reflexivity]. }
  assert (Hn : Name r = name) by exact (Hk _ _ Hr).
  destruct (syncAuditTag_effects c name s r Hr) as [[E|[r0 [msg [E0 E]]]] _];
    [split; [rewrite E; exact Hk | left; exact E]|].
  rewrite Hn in E0, E. rewrite Hr in E0. injection E0 as <-.
  rewrite E. split.
  - apply map_Forall_insert_2; [exact Hn | exact Hk].
  - right. exists r, msg. split; [reflexivity | reflexivity].
Qed.

Lemma syncAuditTag_records_frame_witness :
  let c := sampleController "local" "" false in
  let s := sampleState (sampleRecord "" None) [] in
  keyedByName (records s)
  /\ let s' := snd (syncAuditTag c sampleTag s) in
     keyedByName (records s')
     /\ (records s' = records s
         \/ exists r msg, records s !! sampleTag = Some r
                          /\ records s' = <[sampleTag := failedRecord r (clock c) msg]>
                                            (records s)).
Proof.
  cbv zeta.
  assert (H : keyedByName (records (sampleState (sampleRecord "" None) [])))
    by (unfold keyedByName; apply map_Forall_singleton; reflexivity).
  split; [exact H | exact (syncAuditTag_records_frame _ _ _ H)].
Defined.

(** X8: one step of [syncAuditTag] leaves the signature store unchanged or adds exactly the digest of the reconciled record. *)
Theorem syncAuditTag_signatures_frame c name s :
  let s' := snd (syncAuditTag c name s) in
  signatures s' = signatures s
  \/ exists r, records s !! name = Some r /\ signatures s' = ID r :: signatures s.
Proof.
  cbv zeta. destruct (records s !! name) as [r|] eqn:Hr.
  - destruct (syncAuditTag_effects c name s r Hr) as [_ [[E|E] _]]; [left; exact E|].
    right. exists r. split; [reflexivity | exact E].
  - rewrite (syncAuditTag_untracked c name s Hr). left. reflexivity.
Qed.

(** X9: one step of [syncAuditTag] only appends events, and every signing request it makes is for the reconciled record's digest and location, for a record without failure and without signature whose release loaded and which was verified locally or by a complete, successful verify job. *)
Theorem syncAuditTag_signs_only_verified c name s :
  let s' := snd (syncAuditTag c name s) in
  exists suf, trace s' = trace s ++ suf
    /\ forall d l, In (ESign d l) suf ->
         exists r, records s !! name = Some r
                   /\ d = ID r /\ l = Location r /\ verifiedFor c s r.
Proof.
  cbv zeta. destruct (records s !! name) as [r|] eqn:Hr.
  - destruct (syncAuditTag_effects c name s r Hr) as [_ [_ [_ [suf [E F]]]]].
    exists suf. split; [exact E|]. intros d l Hin.
    rewrite List.Forall_forall in F.
    destruct (F _ Hin d l eq_refl) as [Hd [Hl Hv]]. exists r. auto.
  - rewrite (syncAuditTag_untracked c name s Hr). exists []. cbn.
    split; [rewrite app_nil_r; reflexivity | intros d l []].
Qed.

(** X10: one step of [syncAuditTag] leaves the jobs unchanged or creates exactly the verify job of the reconciled record, and only when its release loaded, the CLI image is not local, the job list succeeded, at most two audit jobs were unfinished and no job of that name existed. *)
Theorem syncAuditTag_jobs_frame c name s :
  let s' := snd (syncAuditTag c name s) in
  jobs s' = jobs s \/ exists r, records s !! name = Some r /\ createdFor c s r (jobs s').
Proof.
  cbv zeta. destruct (records s !! name) as [r|] eqn:Hr.
  - destruct (syncAuditTag_effects c name s r Hr) as [_ [_ [[E|E] _]]]; [left; exact E|].
    right. exists r. split; [reflexivity | exact E].
  - rewrite (syncAuditTag_untracked c name s Hr). left. reflexivity.
Qed.

(** X11: one step of [syncAuditTag] adds at most one unfinished audit job, and only when at most two were unfinished before. *)
Theorem syncAuditTag_adds_at_most_one_job c name s :
  let s' := snd (syncAuditTag c name s) in
  countUnfinished (auditJobs (jobs s')) = countUnfinished (auditJobs (jobs s))
  \/ (countUnfinished (auditJobs (jobs s)) <= 2
      /\ countUnfinished (auditJobs (jobs s')) = 1 + countUnfinished (auditJobs (jobs s))).
Proof.
  cbv zeta. destruct (records s !! name) as [r|] eqn:Hr.
  - destruct (syncAuditTag_effects c name s r Hr) as [_ [_ [[E|E] _]]];
      [left; rewrite E; reflexivity|].
    destruct E as [release [_ [_ [-> [_ [Hc _]]]]]].
    right. split; [exact Hc | apply newAuditVerifyJob_counted].
  - rewrite (syncAuditTag_untracked c name s Hr). left. reflexivity.
Qed.

Lemma countAuditVerifyJobs_run c s :
  fst (countAuditVerifyJobs c s)
  = if jobListErr c then (0, false) else (countUnfinished (auditJobs (jobs s)), true).
Proof.
  unfold countAuditVerifyJobs, mbind, M_bind, emit, getState, mret, M_ret. cbn.
  destruct (jobListErr c); reflexivity.
Qed.

(** X12: when no job of the record's name exists and creation succeeds, [ensureAuditVerifyJob] returns the new verify job and the count of [countAuditVerifyJobs] grows by one. *)
Theorem ensureAuditVerifyJob_counted c release r s :
  jobListErr c = false -> jobCreateErr c = None ->
  findJob (auditVerifyJobName (ID r)) (jobs s) = None ->
  let '(res, s') := ensureAuditVerifyJob c release r s in
  res = (Some (newAuditVerifyJob release r (auditVerifyJobName (ID r))), None)
  /\ fst (countAuditVerifyJobs c s') = (fst (fst (countAuditVerifyJobs c s)) + 1, true).
Proof.
  intros Hl Hc Hf.
  assert (E : snd (ensureAuditVerifyJob c release r s)
              = mkState (records s) (signatures s)
                  (newAuditVerifyJob release r (auditVerifyJobName (ID r)) :: jobs s)
                  ((trace s ++ [EEnsureJob (auditVerifyJobName (ID r))])
                   ++ [ECreateJob (newAuditVerifyJob release r (auditVerifyJobName (ID r)))])
              /\ fst (ensureAuditVerifyJob c release r s)
                 = (Some (newAuditVerifyJob release r (auditVerifyJobName (ID r))), None)).
  { unfold ensureAuditVerifyJob, ensureJob, mbind, M_bind, emit, getState, addJob, mret, M_ret.
    unfold findJob in Hf. cbn. rewrite Hf, Hc. split; reflexivity. }
  destruct (ensureAuditVerifyJob c release r s) as [res s'].
  destruct E as [E1 E2]. cbn in E1, E2. subst s' res. split; [reflexivity|].
  rewrite !countAuditVerifyJobs_run, Hl. cbn [jobs fst].
  rewrite newAuditVerifyJob_counted. f_equal. lia.
Qed.

Lemma ensureAuditVerifyJob_counted_witness :
  let c := sampleController "quay.io/cli:pinned" "" false in
  let r := sampleRecord sampleDigest None in
  let s := sampleState r [] in
  (jobListErr c = false /\ jobCreateErr c = None
   /\ findJob (auditVerifyJobName (ID r)) (jobs s) = None)
  /\ let '(res, s') := ensureAuditVerifyJob c (sampleRelease "") r s in
     res = (Some (newAuditVerifyJob (sampleRelease "") r (auditVerifyJobName (ID r))), None)
     /\ fst (countAuditVerifyJobs c s') = (fst (fst (countAuditVerifyJobs c s)) + 1, true).
Proof.
  cbv zeta.
  assert (H1 : jobListErr (sampleController "quay.io/cli:pinned" "" false) = false)
    by reflexivity.
  assert (H2 : jobCreateErr (sampleController "quay.io/cli:pinned" "" false) = None)
    by reflexivity.
  assert (H3 : findJob (auditVerifyJobName (ID (sampleRecord sampleDigest None)))
                 (jobs (sampleState (sampleRecord sampleDigest None) [])) = None)
    by reflexivity.
  split; [exact (conj H1 (conj H2 H3))|].
  exact (ensureAuditVerifyJob_counted _ (sampleRelease "") _ _ H1 H2 H3).
Defined.

(** X13: once [ensureAuditVerifyJob] has returned a job, calling it again returns the same job and creates nothing. *)
Theorem ensureAuditVerifyJob_idempotent c release r s j :
  fst (ensureAuditVerifyJob c release r s) = (Some j, None) ->
  let s1 := snd (ensureAuditVerifyJob c release r s) in
  fst (ensureAuditVerifyJob c release r s1) = (Some j, None)
  /\ jobs (snd (ensureAuditVerifyJob c release r s1)) = jobs s1.
Proof.
  unfold ensureAuditVerifyJob, ensureJob, mbind, M_bind, emit, getState, addJob, mret, M_ret.
  cbn. destruct (find _ (jobs s)) as [j0|] eqn:Hf.
  - cbn. intros H. injection H as <-. rewrite Hf. cbn. split; reflexivity.
  - destruct (jobCreateErr c); cbn; intros H; [discriminate|]. injection H as <-.
    rewrite String.eqb_refl. cbn. split; reflexivity.
Qed.

Lemma ensureAuditVerifyJob_idempotent_witness :
  let c := sampleController "quay.io/cli:pinned" "" false in
  let r := sampleRecord sampleDigest None in
  let s := sampleState r [] in
  let j := newAuditVerifyJob (sampleRelease "") r (auditVerifyJobName (ID r)) in
  fst (ensureAuditVerifyJob c (sampleRelease "") r s) = (Some j, None)
  /\ let s1 := snd (ensureAuditVerifyJob c (sampleRelease "") r s) in
     fst (ensureAuditVerifyJob c (sampleRelease "") r s1) = (Some j, None)
     /\ jobs (snd (ensureAuditVerifyJob c (sampleRelease "") r s1)) = jobs s1.
Proof.
  cbv zeta.
  assert (H : fst (ensureAuditVerifyJob (sampleController "quay.io/cli:pinned" "" false)
                     (sampleRelease "") (sampleRecord sampleDigest None)
                     (sampleState (sampleRecord sampleDigest None) []))
              = (Some (newAuditVerifyJob (sampleRelease "") (sampleRecord sampleDigest None)
                         (auditVerifyJobName (ID (sampleRecord sampleDigest None)))), None))
    by reflexivity.
  split; [exact H | exact (ensureAuditVerifyJob_idempotent _ _ _ _ _ H)].
Defined.
